(** * PDFLingo: the layout-preserving page reconstruction of [src/App.tsx]

    A shallow embedding of [getFont] and of the page body of
    [handleTranslate], with the properties of the reconstruction pipeline
    stated and proved over it; then of the rest of the component
    ([copyMetadata], [handleFileChange], [isTranslateDisabled],
    [handleReset], the page loop and the views), with further properties.

    Conventions of the embedding.
    - JavaScript numbers are exact rationals ([Q]); [Math.floor] is [Qfloor]
      and produces an integer ([Z]).  The font-size formula is transcribed a
      second time over IEEE binary64 ([fitSizeF]) to check the numeric
      examples bit for bit.
    - Strings are [string]s of 8-bit characters: font names and run texts
      are taken to be ASCII, so [toLowerCase] only moves [A-Z] and [trim]
      strips the ASCII white space (codes 9-13 and 32).
    - The collaborators that are not part of the file ([redactText], the
      translation service, pdf-lib's [widthOfTextAtSize] and [drawText])
      are parameters; the service and the two pdf-lib calls return or
      throw.
    - The effects of the page body (pixel reads, the provider call, font
      embedding, drawing on the new page) are recorded as a trace of
      [Event]s; the provider may throw.  Progress messages and the other
      React state updates are left out. *)

From Stdlib Require Import Reals.
From Stdlib Require Import ZArith QArith Qround Qminmax Lqa Floats.
From Stdlib Require Import String Ascii List Bool Arith Lia.
Import ListNotations.

Local Open Scope list_scope.
Local Open Scope string_scope.

(** ** JavaScript strings *)

Module JsString.

(** [c.toLowerCase()] on one ASCII character. *)
Definition lowerAscii (c : ascii) : ascii :=
  let n := nat_of_ascii c in
  if (65 <=? n)%nat && (n <=? 90)%nat then ascii_of_nat (n + 32) else c.

Definition upperAscii (c : ascii) : ascii :=
  let n := nat_of_ascii c in
  if (97 <=? n)%nat && (n <=? 122)%nat then ascii_of_nat (n - 32) else c.

(** [s.toLowerCase()] *)
Fixpoint toLowerCase (s : string) : string :=
  match s with
  | EmptyString => EmptyString
  | String c s' => String (lowerAscii c) (toLowerCase s')
  end.

Fixpoint toUpperCase (s : string) : string :=
  match s with
  | EmptyString => EmptyString
  | String c s' => String (upperAscii c) (toUpperCase s')
  end.

(** [s.includes(sub)]: [sub] starts at some position of [s]. *)
Fixpoint includes (s sub : string) : bool :=
  String.prefix sub s ||
  match s with
  | EmptyString => false
  | String _ s' => includes s' sub
  end.

(** [s.endsWith(suf)]: some suffix of [s] is [suf]. *)
Fixpoint endsWith (s suf : string) : bool :=
  String.eqb s suf ||
  match s with
  | EmptyString => false
  | String _ s' => endsWith s' suf
  end.

(** White space removed by [trim], within ASCII: TAB, LF, VT, FF, CR, SP.
    On texts of ASCII characters this is all [String.prototype.trim]
    removes; the white space beyond ASCII (U+00A0, U+FEFF and the like) is
    outside the strings of this development. *)
Definition isWhiteSpace (c : ascii) : bool :=
  let n := nat_of_ascii c in
  ((9 <=? n)%nat && (n <=? 13)%nat) || (n =? 32)%nat.

Fixpoint trimStart (s : string) : string :=
  match s with
  | EmptyString => EmptyString
  | String c s' => if isWhiteSpace c then trimStart s' else s
  end.

(** [trimEnd] drops the trailing white space: a character is kept when it
    is not white space or something is kept after it. *)
Fixpoint trimEnd (s : string) : string :=
  match s with
  | EmptyString => EmptyString
  | String c s' =>
      match trimEnd s' with
      | EmptyString => if isWhiteSpace c then EmptyString else String c EmptyString
      | t => String c t
      end
  end.

(** [s.trim()] *)
Definition trim (s : string) : string := trimEnd (trimStart s).

(** [texts.join(sep)] *)
Definition join (sep : string) (texts : list string) : string :=
  String.concat sep texts.

(** [s.split(sep)] for a non-empty separator: the pieces between the
    occurrences of [sep] found from left to right, an occurrence being
    consumed whole before the search goes on.  [skip] counts the characters
    of a matched separator still to be passed over; [piece] is the piece
    being collected. *)
Fixpoint splitFrom (sep s : string) (skip : nat) (piece : string) : list string :=
  match s with
  | EmptyString => [piece]
  | String c s' =>
      match skip with
      | S k => splitFrom sep s' k piece
      | O =>
          if String.prefix sep s
          then piece :: splitFrom sep s' (String.length sep - 1) EmptyString
          else splitFrom sep s' 0 (piece ++ String c EmptyString)
      end
  end.

Definition split (sep s : string) : list string := splitFrom sep s 0 EmptyString.

(** The declarative reading of "contains": the substring sits between a
    prefix and a suffix. *)
Definition Contains (s sub : string) : Prop :=
  exists pre post, s = pre ++ sub ++ post.

End JsString.
Import JsString.

(** ** pdf-lib: standard fonts and colours *)

(** pdf-lib's [StandardFonts] enumeration (all fourteen members). *)
Inductive StandardFonts : Type :=
| Courier | CourierBold | CourierOblique | CourierBoldOblique
| Helvetica | HelveticaBold | HelveticaOblique | HelveticaBoldOblique
| TimesRoman | TimesRomanBold | TimesRomanItalic | TimesRomanBoldItalic
| Symbol | ZapfDingbats.

Definition StandardFonts_eqb (a b : StandardFonts) : bool :=
  match a, b with
  | Courier, Courier | CourierBold, CourierBold
  | CourierOblique, CourierOblique | CourierBoldOblique, CourierBoldOblique
  | Helvetica, Helvetica | HelveticaBold, HelveticaBold
  | HelveticaOblique, HelveticaOblique
  | HelveticaBoldOblique, HelveticaBoldOblique
  | TimesRoman, TimesRoman | TimesRomanBold, TimesRomanBold
  | TimesRomanItalic, TimesRomanItalic
  | TimesRomanBoldItalic, TimesRomanBoldItalic
  | Symbol, Symbol | ZapfDingbats, ZapfDingbats => true
  | _, _ => false
  end.

(** [getFont] of App.tsx, lines 22-54. *)
Definition getFont (fontName : string) : StandardFonts :=
  let lower := toLowerCase fontName in
  let isBold := includes lower "bold" in
  let isItalic := includes lower "italic" || includes lower "oblique" in
  let baseFont :=
    if includes lower "times" then TimesRoman
    else if includes lower "courier" then Courier
    else Helvetica in
  if isBold && isItalic then
    if StandardFonts_eqb baseFont TimesRoman then TimesRomanBoldItalic
    else if StandardFonts_eqb baseFont Courier then CourierBoldOblique
    else HelveticaBoldOblique
  else if isBold then
    if StandardFonts_eqb baseFont TimesRoman then TimesRomanBold
    else if StandardFonts_eqb baseFont Courier then CourierBold
    else HelveticaBold
  else if isItalic then
    if StandardFonts_eqb baseFont TimesRoman then TimesRomanItalic
    else if StandardFonts_eqb baseFont Courier then CourierOblique
    else HelveticaOblique
  else baseFont.

(** The specification's reading of a font variant: a family and a style. *)
Inductive Family : Type := Serif | SansSerif | Monospace.
Inductive Style : Type := Regular | Bold | Italic | BoldItalic.

Definition variantOf (f : StandardFonts) : option (Family * Style) :=
  match f with
  | TimesRoman => Some (Serif, Regular)
  | TimesRomanBold => Some (Serif, Bold)
  | TimesRomanItalic => Some (Serif, Italic)
  | TimesRomanBoldItalic => Some (Serif, BoldItalic)
  | Helvetica => Some (SansSerif, Regular)
  | HelveticaBold => Some (SansSerif, Bold)
  | HelveticaOblique => Some (SansSerif, Italic)
  | HelveticaBoldOblique => Some (SansSerif, BoldItalic)
  | Courier => Some (Monospace, Regular)
  | CourierBold => Some (Monospace, Bold)
  | CourierOblique => Some (Monospace, Italic)
  | CourierBoldOblique => Some (Monospace, BoldItalic)
  | Symbol | ZapfDingbats => None
  end.

(** pdf-lib's [rgb(red, green, blue)], components between 0 and 1. *)
Record Color : Type := rgb { red : Q; green : Q; blue : Q }.


(** The drawing calls made on the new page: [drawRectangle] (the
    specification's EraseRect) and [drawText] (its PaintText). *)
Inductive DrawOp : Type :=
| DrawRectangle (x y width height : Q) (color : Color)
| DrawText (text : string) (x y : Q) (font : StandardFonts) (size : Q) (color : Color).

(** ** pdf.js: text items, viewport, canvas *)

(** A transform [[a, b, c, d, e, f]]; [t4] and [t5] are its entries 4 and 5. *)
Record Matrix : Type := mkMatrix { t0 : Q; t1 : Q; t2 : Q; t3 : Q; t4 : Q; t5 : Q }.

(** [pdfjsLib.Util.transform(m1, m2)] *)
Definition Util_transform (m1 m2 : Matrix) : Matrix :=
  mkMatrix (t0 m1 * t0 m2 + t2 m1 * t1 m2)
           (t1 m1 * t0 m2 + t3 m1 * t1 m2)
           (t0 m1 * t2 m2 + t2 m1 * t3 m2)
           (t1 m1 * t2 m2 + t3 m1 * t3 m2)
           (t0 m1 * t4 m2 + t2 m1 * t5 m2 + t4 m1)
           (t1 m1 * t4 m2 + t3 m1 * t5 m2 + t5 m1).

Record TextItem : Type := mkTextItem {
  str : string;
  transform : Matrix;
  width : Q;
  height : Q;
  fontName : string
}.

(** An entry of [textContent.items]: a text item, or marked content, which
    has no [str]. *)
Inductive Item : Type :=
| Text (t : TextItem)
| MarkedContent.

Record Viewport : Type := mkViewport { scale : Q; vtransform : Matrix }.

(** One pixel as [getImageData(x, y, 1, 1).data] gives it ([r, g, b]). *)
Record Pixel : Type := mkPixel { pr : Z; pg : Z; pb : Z }.

(** The rendered page: the canvas size and its pixels. *)
Record Canvas : Type := mkCanvas {
  cwidth : Z;
  cheight : Z;
  pixelAt : Z -> Z -> Pixel
}.

Definition inCanvas (cv : Canvas) (x y : Z) : bool :=
  ((0 <=? x) && (x <? cwidth cv) && (0 <=? y) && (y <? cheight cv))%Z.

(** What a read returns: outside the canvas the pixel is transparent
    black. *)
Definition imageData (cv : Canvas) (x y : Z) : Pixel :=
  if inCanvas cv x y then pixelAt cv x y else mkPixel 0 0 0.

(** ** Effects of the page body *)

Inductive TranslationService : Type := Gemini | Ollama.

Inductive Event : Type :=
| GetImageData (sx sy : Z)
| TranslateWithGemini (text targetLanguage : string)
| TranslateWithOllama (text targetLanguage ollamaUrl : string)
| EmbedFont (font : StandardFonts)
| Draw (op : DrawOp).

(** A computation returns a value or throws (the message of the error). *)
Inductive Outcome (A : Type) : Type :=
| Return (a : A)
| Throw (e : string).
Arguments Return {A} a.
Arguments Throw {A} e.

(** The keys of the [embeddedFonts] map. *)
Definition Fonts : Type := list StandardFonts.

Record Run (A : Type) : Type := mkRun {
  outcome : Outcome A;
  fonts : Fonts;
  events : list Event
}.
Arguments mkRun {A} outcome fonts events.
Arguments outcome {A} r.
Arguments fonts {A} r.
Arguments events {A} r.

(** A computation over the font cache that logs its events. *)
Definition M (A : Type) : Type := Fonts -> Run A.

Definition ret {A : Type} (a : A) : M A :=
  fun fs => mkRun (Return a) fs [].

Definition bind {A B : Type} (m : M A) (k : A -> M B) : M B :=
  fun fs =>
    let r := m fs in
    match outcome r with
    | Return a =>
        let r' := k a (fonts r) in
        mkRun (outcome r') (fonts r') (events r ++ events r')%list
    | Throw e => mkRun (Throw e) (fonts r) (events r)
    end.

Definition emit (e : Event) : M unit :=
  fun fs => mkRun (Return tt) fs [e].

Declare Scope js_scope.
Delimit Scope js_scope with js.
Notation "x <- m ;; k" := (bind m (fun x => k))
  (at level 61, m at next level, right associativity) : js_scope.
Notation "m ;; k" := (bind m (fun _ => k))
  (at level 61, right associativity) : js_scope.
Local Open Scope js_scope.

(** [Array.prototype.map] with an effectful callback, left to right. *)
Fixpoint mapM {A B : Type} (f : A -> M B) (l : list A) : M (list B) :=
  match l with
  | [] => ret []
  | a :: l' => b <- f a ;; bs <- mapM f l' ;; ret (b :: bs)
  end.

(** [embeddedFonts.has(fontType)] *)
Definition hasFont (f : StandardFonts) : M bool :=
  fun fs => mkRun (Return (existsb (StandardFonts_eqb f) fs)) fs [].

(** [embeddedFonts.set(fontType, await newPdfDoc.embedFont(fontType))] *)
Definition embedFont (f : StandardFonts) : M unit :=
  fun fs => mkRun (Return tt) (f :: fs) [EmbedFont f].

(** [canvasContext.getImageData(sx, sy, 1, 1).data] *)
Definition getImageData (cv : Canvas) (sx sy : Z) : M Pixel :=
  fun fs => mkRun (Return (imageData cv sx sy)) fs [GetImageData sx sy].

(** ** Number helpers *)

Local Open Scope Q_scope.

(** [a < b] on numbers. *)
Definition Qltb (a b : Q) : bool := negb (Qle_bool b a).

(** [Math.sqrt(n) > k] for integers [n] and [k >= 0]: the square root is
    monotone and [Math.sqrt(k * k)] is exactly [k], so the test holds
    exactly when [n > k * k] (see [sqrtExceeds_sqrt] for the real square
    root). *)
Definition sqrtExceeds (n k : Z) : bool := (k * k <? n)%Z.

(** [Math.pow(r - bgR, 2) + Math.pow(g - bgG, 2) + Math.pow(b - bgB, 2)] *)
Definition sumOfSquares (p bg : Pixel) : Z :=
  ((pr p - pr bg) ^ 2 + (pg p - pg bg) ^ 2 + (pb p - pb bg) ^ 2)%Z.

(** [(bgR + bgG + bgB) / 3] *)
Definition meanOf (bg : Pixel) : Q := inject_Z (pr bg + pg bg + pb bg) / 3.

(** ** Colour sampling (App.tsx, lines 163-200) *)

Definition canvasX (vp : Viewport) (t : TextItem) : Q :=
  t4 (Util_transform (vtransform vp) (transform t)).
Definition canvasY (vp : Viewport) (t : TextItem) : Q :=
  t5 (Util_transform (vtransform vp) (transform t)).
Definition canvasWidth (vp : Viewport) (t : TextItem) : Q := width t * scale vp.
Definition canvasHeight (vp : Viewport) (t : TextItem) : Q := height t * scale vp.

Definition bgSampleX (vp : Viewport) (t : TextItem) : Z :=
  Z.max 0 (Qfloor (canvasX vp t - 5)).
Definition bgSampleY (cv : Canvas) (vp : Viewport) (t : TextItem) : Z :=
  Z.max 0 (Z.min (cheight cv - 1) (Qfloor (canvasY vp t - canvasHeight vp t * 0.5))).

(** The three sample points: centre, "top-left-ish", "bottom-right-ish". *)
Definition samplePoints (vp : Viewport) (t : TextItem) : list (Q * Q) :=
  [ (canvasX vp t + canvasWidth vp t * 0.5, canvasY vp t - canvasHeight vp t * 0.5);
    (canvasX vp t + canvasWidth vp t * 0.25, canvasY vp t - canvasHeight vp t * 0.25);
    (canvasX vp t + canvasWidth vp t * 0.75, canvasY vp t - canvasHeight vp t * 0.75) ].

(** Where a sample point is read, [(sx, sy)]. *)
Definition clampPoint (cv : Canvas) (point : Q * Q) : Z * Z :=
  (Z.max 0 (Z.min (cwidth cv - 1) (Qfloor (fst point))),
   Z.max 0 (Z.min (cheight cv - 1) (Qfloor (snd point)))).

(** [rgb(r / 255, g / 255, b / 255)] *)
Definition colorOfPixel (p : Pixel) : Color :=
  rgb (inject_Z (pr p) / 255) (inject_Z (pg p) / 255) (inject_Z (pb p) / 255).

(** The loop over the sample points; it carries [finalColor] and
    [colorFound] and stops at the first point that differs enough from the
    background. *)
Fixpoint samplePointsLoop (cv : Canvas) (bg : Pixel) (points : list (Q * Q))
    (finalColor : Color) (colorFound : bool) : M (Color * bool) :=
  match points with
  | [] => ret (finalColor, colorFound)
  | point :: rest =>
      let '(sx, sy) := clampPoint cv point in
      p <- getImageData cv sx sy ;;
      if sqrtExceeds (sumOfSquares p bg) 50
      then ret (colorOfPixel p, true)
      else samplePointsLoop cv bg rest finalColor colorFound
  end.

Definition sampleColor (cv : Canvas) (vp : Viewport) (t : TextItem) : M Color :=
  bg <- getImageData cv (bgSampleX vp t) (bgSampleY cv vp t) ;;
  found <- samplePointsLoop cv bg (samplePoints vp t) (rgb 0 0 0) false ;;
  let '(finalColor, colorFound) := found in
  if negb colorFound && Qltb (meanOf bg) 128
  then ret (rgb 1 1 1)
  else ret finalColor.

(** An entry of [itemsWithStyle]: the item, with a [color] when the
    callback sampled one. *)
Record StyledItem : Type := mkStyled { item : Item; color : option Color }.

(** [!('str' in item) || item.str.trim().length === 0], negated. *)
Definition hasText (it : Item) : bool :=
  match it with
  | Text t => negb (String.length (trim (str t)) =? 0)%nat
  | MarkedContent => false
  end.

(** The callback of [textContent.items.map]. *)
Definition styleItem (cv : Canvas) (vp : Viewport) (it : Item) : M StyledItem :=
  match it with
  | MarkedContent => ret (mkStyled it None)
  | Text t =>
      if (String.length (trim (str t)) =? 0)%nat
      then ret (mkStyled it None)
      else c <- sampleColor cv vp t ;; ret (mkStyled it (Some c))
  end.

(** ** Fitting the font size (App.tsx, lines 249-261) *)

Definition fitSize (originalWidth originalSize textWidth : Q) : Q :=
  let newSize := originalSize in
  let newSize :=
    if Qltb originalWidth textWidth && Qltb 0 originalWidth
    then originalSize * (originalWidth / textWidth) * 0.95
    else newSize in
  Qmax newSize 4.

(** [Math.max] on binary64: a NaN argument gives NaN. *)
Definition Math_maxF (a b : float) : float :=
  if PrimFloat.is_nan a then a
  else if PrimFloat.is_nan b then b
  else if PrimFloat.ltb a b then b else a.

(** The same lines over binary64 numbers; the hexadecimal literal is the
    double nearest to 0.95. *)
Definition fitSizeF (originalWidth originalSize textWidth : float) : float :=
  let newSize := originalSize in
  let newSize :=
    if PrimFloat.ltb originalWidth textWidth && PrimFloat.ltb 0 originalWidth
    then (originalSize * (originalWidth / textWidth) * 0x1.e666666666666p-1)%float
    else newSize in
  Math_maxF newSize 4.

(** ** The page body of [handleTranslate] (App.tsx, lines 142-273) *)

(** The sentinel that packs the texts of a page into one request. *)
Definition sentinel : string := " ||| ".

(** The state of the component read by the callback. *)
Record Settings : Type := mkSettings {
  targetLanguage : string;
  translationService : TranslationService;
  ollamaUrl : string;
  anonymize : bool
}.

(** What the page loop has for one page once it is rendered: the items of
    [textContent], the 2-D context of the canvas (absent when [getContext]
    gives null) and the viewport. *)
Record Page : Type := mkPage {
  items : list Item;
  canvasContext : option Canvas;
  viewport : Viewport
}.

(** The collaborators outside the file: [redactText]
    (services/redactionService); the two translation services
    (services/translationService), which return the translated string or
    throw; and, of pdf-lib, [font.widthOfTextAtSize(text, size)] and
    [newPage.drawText(text, {x, y, font, size, color})], which return or
    throw (on a text the font cannot encode, for one). *)
Record Collaborators : Type := mkCollaborators {
  redactText : string -> string;
  translateWithGemini : string -> string -> Outcome string;
  translateWithOllama : string -> string -> string -> Outcome string;
  widthOfTextAtSize : StandardFonts -> string -> Q -> Outcome Q;
  drawText : string -> Q -> Q -> StandardFonts -> Q -> Color -> Outcome unit
}.

(** A call outside the file: its outcome, no event of its own. *)
Definition call {A : Type} (o : Outcome A) : M A :=
  fun fs => mkRun o fs [].

Section PageBody.

Variable env : Collaborators.
Variable st : Settings.

(** The call to the selected translation service. *)
Definition translate (textToTranslate : string) : M string :=
  fun fs =>
    match translationService st with
    | Gemini =>
        mkRun (translateWithGemini env textToTranslate (targetLanguage st)) fs
              [TranslateWithGemini textToTranslate (targetLanguage st)]
    | Ollama =>
        mkRun (translateWithOllama env textToTranslate (targetLanguage st) (ollamaUrl st)) fs
              [TranslateWithOllama textToTranslate (targetLanguage st) (ollamaUrl st)]
    end.

(** The body of [if (currentTranslatedIndex < translatedTexts.length)]:
    embed the font when it is new, measure the text, fit the size, draw the
    text.  A throw of [widthOfTextAtSize] or of [drawText] leaves the page;
    the text counts as drawn when [drawText] has returned. *)
Definition drawTranslated (t : TextItem) (c : Color) (translatedText : string) : M unit :=
  let fontType := getFont (fontName t) in
  known <- hasFont fontType ;;
  (if known then ret tt else embedFont fontType) ;;
  let originalSize := height t in
  let originalWidth := width t in
  textWidth <- call (widthOfTextAtSize env fontType translatedText originalSize) ;;
  let newSize := fitSize originalWidth originalSize textWidth in
  call (drawText env translatedText (t4 (transform t)) (t5 (transform t))
                 fontType newSize c) ;;
  emit (Draw (DrawText translatedText (t4 (transform t)) (t5 (transform t))
                       fontType newSize c)).

(** [newPage.drawRectangle] over the original text. *)
Definition eraseOp (t : TextItem) : DrawOp :=
  DrawRectangle (t4 (transform t))
                (t5 (transform t) - height t * 0.25)
                (width t + 1)
                (height t * 1.25)
                (rgb 1 1 1).

(** [for (const item of itemsWithStyle)], carrying
    [currentTranslatedIndex]. *)
Fixpoint drawItems (itemsWithStyle : list StyledItem) (translatedTexts : list string)
    (currentTranslatedIndex : nat) : M nat :=
  match itemsWithStyle with
  | [] => ret currentTranslatedIndex
  | si :: rest =>
      match item si, color si with
      | Text t, Some c =>
          if (0 <? String.length (trim (str t)))%nat then
            emit (Draw (eraseOp t)) ;;
            next <- (if (currentTranslatedIndex <? List.length translatedTexts)%nat
                     then
                       drawTranslated t c (nth currentTranslatedIndex translatedTexts "") ;;
                       ret (S currentTranslatedIndex)
                     else ret currentTranslatedIndex) ;;
            drawItems rest translatedTexts next
          else drawItems rest translatedTexts currentTranslatedIndex
      | _, _ => drawItems rest translatedTexts currentTranslatedIndex
      end
  end.

(** [item => ('str' in item ? item.str : '')] *)
Definition strOf (si : StyledItem) : string :=
  match item si with
  | Text t => str t
  | MarkedContent => ""
  end.

(** One iteration of the page loop, from [textContent] on; [continue] is
    [ret tt]. *)
Definition translatePage (page : Page) : M unit :=
  if (List.length (items page) =? 0)%nat then ret tt else
  match canvasContext page with
  | None => ret tt
  | Some cv =>
      itemsWithStyle <- mapM (styleItem cv (viewport page)) (items page) ;;
      let originalTexts :=
        filter (fun s => (0 <? String.length (trim s))%nat) (map strOf itemsWithStyle) in
      if (List.length originalTexts =? 0)%nat then ret tt else
      let textsToProcess :=
        if anonymize st then map (redactText env) originalTexts else originalTexts in
      let textToTranslate := join sentinel textsToProcess in
      translatedFullText <- translate textToTranslate ;;
      let translatedTexts := split sentinel translatedFullText in
      drawItems itemsWithStyle translatedTexts 0 ;;
      ret tt
  end.

(** [for (let i = 0; i < totalPages; i++)]: the pages in order; an error
    thrown in a page leaves the loop. *)
Fixpoint pageLoop (pages : list Page) : M unit :=
  match pages with
  | [] => ret tt
  | page :: rest => translatePage page ;; pageLoop rest
  end.

(** [handleTranslate] from the page loop on: the font cache starts empty;
    the result is the [status] set by the [catch] ([None] when the document
    was written) and what was done. *)
Definition handleTranslate (pages : list Page) : option string * list Event :=
  let r := pageLoop pages [] in
  match outcome r with
  | Return _ => (None, events r)
  | Throw e => (Some ("An error occurred: " ++ e), events r)
  end.

End PageBody.

(** The drawing calls among the events, in the order they were made. *)
Fixpoint drawOps (evs : list Event) : list DrawOp :=
  match evs with
  | [] => []
  | Draw op :: evs' => op :: drawOps evs'
  | _ :: evs' => drawOps evs'
  end.

(** The requests sent to a translation service. *)
Fixpoint requests (evs : list Event) : list string :=
  match evs with
  | [] => []
  | TranslateWithGemini text _ :: evs' => text :: requests evs'
  | TranslateWithOllama text _ _ :: evs' => text :: requests evs'
  | _ :: evs' => requests evs'
  end.

(** The pixels read. *)
Fixpoint pixelReads (evs : list Event) : list (Z * Z) :=
  match evs with
  | [] => []
  | GetImageData sx sy :: evs' => (sx, sy) :: pixelReads evs'
  | _ :: evs' => pixelReads evs'
  end.

(** ** The behaviour in the specification's words *)

(** A candidate is distinct from the background when their distance in RGB
    space exceeds 50. *)
Definition distinctFrom (bg p : Pixel) : bool := sqrtExceeds (sumOfSquares p bg) 50.

(** The first distinct candidate, else white on a dark background and black
    otherwise. *)
Definition chosenColor (bg : Pixel) (candidates : list Pixel) : Color :=
  match find (distinctFrom bg) candidates with
  | Some p => colorOfPixel p
  | None => if Qltb (meanOf bg) 128 then rgb 1 1 1 else rgb 0 0 0
  end.

Definition bgPixel (cv : Canvas) (vp : Viewport) (t : TextItem) : Pixel :=
  imageData cv (bgSampleX vp t) (bgSampleY cv vp t).

Definition pixelUnder (cv : Canvas) (point : Q * Q) : Pixel :=
  imageData cv (fst (clampPoint cv point)) (snd (clampPoint cv point)).

Definition candidatePixels (cv : Canvas) (vp : Viewport) (t : TextItem) : list Pixel :=
  map (pixelUnder cv) (samplePoints vp t).

Definition sampledColor (cv : Canvas) (vp : Viewport) (t : TextItem) : Color :=
  chosenColor (bgPixel cv vp t) (candidatePixels cv vp t).

(** The candidate reads made before the loop stops. *)
Fixpoint readsUntilDistinct (cv : Canvas) (bg : Pixel) (points : list (Q * Q)) : list Event :=
  match points with
  | [] => []
  | point :: rest =>
      GetImageData (fst (clampPoint cv point)) (snd (clampPoint cv point)) ::
      (if distinctFrom bg (pixelUnder cv point) then [] else readsUntilDistinct cv bg rest)
  end.

Definition sampleEvents (cv : Canvas) (vp : Viewport) (t : TextItem) : list Event :=
  GetImageData (bgSampleX vp t) (bgSampleY cv vp t) ::
  readsUntilDistinct cv (bgPixel cv vp t) (samplePoints vp t).

(** What the [map] callback returns for an item, and the events it makes. *)
Definition styled (cv : Canvas) (vp : Viewport) (it : Item) : StyledItem :=
  mkStyled it
    match it with
    | Text t => if hasText it then Some (sampledColor cv vp t) else None
    | MarkedContent => None
    end.

Definition itemEvents (cv : Canvas) (vp : Viewport) (it : Item) : list Event :=
  match it with
  | Text t => if hasText it then sampleEvents cv vp t else []
  | MarkedContent => []
  end.

(** The runs of a page that survive the empty-text filter, in page order. *)
Fixpoint survivors (its : list Item) : list TextItem :=
  match its with
  | [] => []
  | Text t :: rest => if hasText (Text t) then t :: survivors rest else survivors rest
  | MarkedContent :: rest => survivors rest
  end.

(** The texts sent for a page, joined. *)
Definition requestOf (env : Collaborators) (st : Settings) (its : list Item) : string :=
  let texts := map str (survivors its) in
  join sentinel (if anonymize st then map (redactText env) texts else texts).

(** What the selected service answers to a request. *)
Definition responseTo (env : Collaborators) (st : Settings) (request : string) : Outcome string :=
  match translationService st with
  | Gemini => translateWithGemini env request (targetLanguage st)
  | Ollama => translateWithOllama env request (targetLanguage st) (ollamaUrl st)
  end.

(** What painting a run with a text in colour [c] comes to: the
    [drawText] made, or the error of pdf-lib (measuring comes first). *)
Definition paintWith (env : Collaborators) (t : TextItem) (c : Color) (text : string)
    : Outcome DrawOp :=
  let font := getFont (fontName t) in
  match widthOfTextAtSize env font text (height t) with
  | Throw e => Throw e
  | Return textWidth =>
      let size := fitSize (width t) (height t) textWidth in
      match drawText env text (t4 (transform t)) (t5 (transform t)) font size c with
      | Throw e => Throw e
      | Return _ => Return (DrawText text (t4 (transform t)) (t5 (transform t)) font size c)
      end
  end.

(** Painting a run of the page: the colour is the sampled one. *)
Definition paintOutcome (env : Collaborators) (cv : Canvas) (vp : Viewport)
    (t : TextItem) (text : string) : Outcome DrawOp :=
  paintWith env t (sampledColor cv vp t) text.

(** Runs paired in order with the translated texts: every run reached is
    erased, and painted while texts remain; the first text pdf-lib cannot
    measure or draw ends the drawing, after the rectangle of its run. *)
Fixpoint pairedOps (env : Collaborators) (cv : Canvas) (vp : Viewport)
    (runs : list TextItem) (texts : list string) : list DrawOp :=
  match runs with
  | [] => []
  | t :: runs' =>
      match texts with
      | text :: texts' =>
          eraseOp t ::
          match paintOutcome env cv vp t text with
          | Return op => op :: pairedOps env cv vp runs' texts'
          | Throw _ => []
          end
      | [] => eraseOp t :: pairedOps env cv vp runs' []
      end
  end.

(** The error of the first paired text that pdf-lib cannot measure or
    draw, if there is one. *)
Fixpoint pairFailure (env : Collaborators) (cv : Canvas) (vp : Viewport)
    (runs : list TextItem) (texts : list string) : option string :=
  match runs, texts with
  | t :: runs', text :: texts' =>
      match paintOutcome env cv vp t text with
      | Return _ => pairFailure env cv vp runs' texts'
      | Throw e => Some e
      end
  | _, _ => None
  end.

(** The pairing in which every paired run has both its calls and nothing at
    all is drawn once the texts have run out. *)
Fixpoint pairedOpsStopping (env : Collaborators) (cv : Canvas) (vp : Viewport)
    (runs : list TextItem) (texts : list string) : list DrawOp :=
  match runs, texts with
  | t :: runs', text :: texts' =>
      eraseOp t ::
      match paintOutcome env cv vp t text with
      | Return op => op :: pairedOpsStopping env cv vp runs' texts'
      | Throw _ => pairedOpsStopping env cv vp runs' texts'
      end
  | _, _ => []
  end.

(** The drawing calls of a run paired with a text: erase, then paint (when
    pdf-lib can). *)
Definition erasePaint (env : Collaborators) (cv : Canvas) (vp : Viewport)
    (p : TextItem * string) : list DrawOp :=
  eraseOp (fst p) ::
  match paintOutcome env cv vp (fst p) (snd p) with
  | Return op => [op]
  | Throw _ => []
  end.

(** A page with the items that have no text removed. *)
Definition withoutEmpty (page : Page) : Page :=
  mkPage (filter hasText (items page)) (canvasContext page) (viewport page).

(** ** Sample inputs *)

Module Sample.

(** A US-letter page rendered at scale 3: white paper, dark ink from column
    30 on. *)
Definition paper : Pixel := mkPixel 255 255 255.
Definition ink : Pixel := mkPixel 30 30 30.

Definition canvas : Canvas :=
  mkCanvas 1836 2376 (fun x _ => if (30 <=? x)%Z then ink else paper).


Definition viewport : Viewport :=
  mkViewport 3 (mkMatrix 3 0 0 (-3) 0 2376).

(** A 12-point run of width 100 at [(x, y)]. *)
Definition run (text : string) (x y : Q) (font : string) : TextItem :=
  mkTextItem text (mkMatrix 12 0 0 12 x y) 100 12 font.

Definition fiveRuns : list Item :=
  [ Text (run "one" 11 700 "Arial");
    Text (run "   " 11 690 "Arial");
    Text (run "two" 11 680 "TimesNewRomanPS-BoldItalicMT");
    MarkedContent;
    Text (run "three" 11 660 "CourierNewPS-BoldMT");
    Text (run "four" 11 640 "Arial");
    Text (run "five" 11 620 "Arial") ].

Definition twoRuns : list Item :=
  [ Text (run "one" 11 700 "Arial"); Text (run "two" 11 680 "Arial") ].

Definition blankRuns : list Item :=
  [ Text (run "   " 11 700 "Arial"); MarkedContent; Text (run "" 11 680 "Arial") ].

Definition page (its : list Item) : Page := mkPage its (Some canvas) viewport.

(** A run placed to the right of the page. *)
Definition farRun : TextItem := run "margin" 1000 700 "Arial".

(** A service that answers every request with [response]; the width of a
    text is half its size per character. *)
Definition answering (response : string) : Collaborators :=
  mkCollaborators
    (fun text => text)
    (fun _ _ => Return response)
    (fun _ _ _ => Return response)
    (fun _ text size => Return (inject_Z (Z.of_nat (String.length text)) * size * 0.5))
    (fun _ _ _ _ _ _ => Return tt).

Definition lineFeed : string := String (ascii_of_nat 10) EmptyString.

(** The same service with the fonts of pdf-lib, which cannot encode a line
    feed: measuring a text that has one throws. *)
Definition answeringStrict (response : string) : Collaborators :=
  mkCollaborators
    (fun text => text)
    (fun _ _ => Return response)
    (fun _ _ _ => Return response)
    (fun _ text size =>
       if includes text lineFeed then Throw "WinAnsi cannot encode"
       else Return (inject_Z (Z.of_nat (String.length text)) * size * 0.5))
    (fun _ _ _ _ _ _ => Return tt).

Definition settings : Settings := mkSettings "Spanish" Gemini "http://localhost:11434/api/generate" true.

(** A service that throws on a request containing ["five"] and answers the
    others. *)
Definition failingOnFive : Collaborators :=
  mkCollaborators
    (fun text => text)
    (fun text _ => if includes text "five" then Throw "quota exceeded"
                   else Return "uno ||| dos")
    (fun _ _ _ => Throw "no server")
    (fun _ text size => Return (inject_Z (Z.of_nat (String.length text)) * size * 0.5))
    (fun _ _ _ _ _ _ => Return tt).

End Sample.

(** ** Summaries of a trace and of a page *)

(** The fonts embedded, in the order of the calls. *)
Fixpoint embedded (evs : list Event) : list StandardFonts :=
  match evs with
  | [] => []
  | EmbedFont f :: evs' => f :: embedded evs'
  | _ :: evs' => embedded evs'
  end.

(** Every text is drawn with a font that is in the cache at that point:
    one of [fs] or one embedded earlier in the trace. *)
Fixpoint fontsReady (fs : Fonts) (evs : list Event) : bool :=
  match evs with
  | [] => true
  | EmbedFont f :: evs' => fontsReady (f :: fs) evs'
  | Draw (DrawText _ _ _ f _ _) :: evs' =>
      existsb (StandardFonts_eqb f) fs && fontsReady fs evs'
  | _ :: evs' => fontsReady fs evs'
  end.

(** The twelve fonts [getFont] chooses from. *)
Definition textFonts : list StandardFonts :=
  [ Courier; CourierBold; CourierOblique; CourierBoldOblique;
    Helvetica; HelveticaBold; HelveticaOblique; HelveticaBoldOblique;
    TimesRoman; TimesRomanBold; TimesRomanItalic; TimesRomanBoldItalic ].

(** A computation keeps the font cache: started on a cache without
    repetition it ends on the fonts it embedded, newest first, in front of
    the cache it found, still without repetition; it draws texts with fonts
    of the cache only; and it embeds text fonts only. *)
Definition KeepsCache {A : Type} (m : M A) : Prop :=
  forall fs, NoDup fs ->
    fonts (m fs) = (rev (embedded (events (m fs))) ++ fs)%list
    /\ NoDup (fonts (m fs))
    /\ fontsReady fs (events (m fs)) = true
    /\ incl (embedded (events (m fs))) textFonts.

Definition isRectangle (op : DrawOp) : bool :=
  match op with DrawRectangle _ _ _ _ _ => true | DrawText _ _ _ _ _ _ => false end.

Definition isText (op : DrawOp) : bool := negb (isRectangle op).

(** The error a page ends the document with, if any: the one its service
    call throws, or else the one pdf-lib throws on the first paired text it
    cannot measure or draw. *)
Definition pageFailure (env : Collaborators) (st : Settings) (page : Page) : option string :=
  match canvasContext page, survivors (items page) with
  | Some cv, _ :: _ =>
      match responseTo env st (requestOf env st (items page)) with
      | Throw e => Some e
      | Return response =>
          pairFailure env cv (viewport page) (survivors (items page))
                      (split sentinel response)
      end
  | _, _ => None
  end.

(** The request of a page, if it makes one. *)
Definition pageRequests (env : Collaborators) (st : Settings) (page : Page) : list string :=
  match canvasContext page, survivors (items page) with
  | Some _, _ :: _ => [requestOf env st (items page)]
  | _, _ => []
  end.

(** The drawing calls of a page (up to its failure, if it has one). *)
Definition pageDraws (env : Collaborators) (st : Settings) (page : Page) : list DrawOp :=
  match canvasContext page with
  | Some cv =>
      match responseTo env st (requestOf env st (items page)) with
      | Return response =>
          pairedOps env cv (viewport page) (survivors (items page)) (split sentinel response)
      | Throw _ => []
      end
  | None => []
  end.

(** A pixel whose components are bytes. *)
Definition isBytePixel (p : Pixel) : Prop :=
  (0 <= pr p <= 255 /\ 0 <= pg p <= 255 /\ 0 <= pb p <= 255)%Z.

(** The characters of a string. *)
Fixpoint chars (s : string) : list ascii :=
  match s with
  | EmptyString => []
  | String c s' => c :: chars s'
  end.

(** A text of ASCII characters (codes below 128). *)
Definition isAscii (s : string) : bool :=
  forallb (fun c => (nat_of_ascii c <? 128)%nat) (chars s).

Definition isAsciiItem (it : Item) : bool :=
  match it with
  | Text t => isAscii (str t)
  | MarkedContent => true
  end.

(** In a split: no suffix of the piece collected so far begins an
    occurrence of the separator. *)
Definition NoEarlyMatch (sep piece s : string) : Prop :=
  forall pre suf, piece = pre ++ suf -> suf <> "" -> String.prefix sep (suf ++ s) = false.

(** A colour pdf-lib accepts: every component between 0 and 1. *)
Definition inUnit (c : Color) : Prop :=
  (0 <= red c <= 1 /\ 0 <= green c <= 1 /\ 0 <= blue c <= 1)%Q.

(** ** The rest of the component: metadata, file selection, views *)

(** [s.replace(pattern, replacement)] with a string pattern: the first
    occurrence of the pattern is replaced.  The replacement is taken as it
    is, which is what JavaScript does when it contains no ["$"]. *)
Fixpoint dropChars (n : nat) (s : string) : string :=
  match n, s with
  | O, _ => s
  | S _, EmptyString => EmptyString
  | S n', String _ s' => dropChars n' s'
  end.

Fixpoint replace (s pattern replacement : string) : string :=
  if String.prefix pattern s
  then replacement ++ dropChars (String.length pattern) s
  else match s with
       | EmptyString => EmptyString
       | String c s' => String c (replace s' pattern replacement)
       end.

(** What [copyMetadata] reads from the source document (a getter gives
    [undefined] as [None]) and what it sets on the new one. *)
Record SourceInfo : Type := mkSourceInfo {
  getTitle : option string;
  getAuthor : option string;
  getSubject : option string;
  getKeywords : option string;
  getProducer : option string;
  getCreationDate : option Z
}.

Record NewInfo : Type := mkNewInfo {
  title : string;
  author : string;
  subject : string;
  keywords : list string;
  producer : string;
  creator : string;
  creationDate : Z;
  modificationDate : Z
}.

(** [value || fallback] on a string that may be undefined: the empty string
    is falsy. *)
Definition orString (value : option string) (fallback : string) : string :=
  match value with
  | Some v => if String.eqb v "" then fallback else v
  | None => fallback
  end.

(** [copyMetadata] of App.tsx, lines 101-110; [now1] and [now2] are the
    two [new Date()]. *)
Definition copyMetadata (now1 now2 : Z) (source : SourceInfo) : NewInfo :=
  mkNewInfo
    (orString (getTitle source) "")
    (orString (getAuthor source) "Alberto Arce")
    (orString (getSubject source) "")
    match getKeywords source with
    | Some k => split ";" k
    | None => []
    end
    (orString (getProducer source) "PDFLingo by Alberto Arce")
    "PDFLingo by Alberto Arce"
    match getCreationDate source with
    | Some d => d
    | None => now1
    end
    now2.

Module App.

Inductive View : Type := Upload | Translating | Result.
Inductive StatusType : Type := Error | Warning.
Record Status : Type := mkStatus { kind : StatusType; message : string }.
Record File : Type := mkFile { name : string; type : string }.

(** The state of the component ([downloadUrl], an object URL derived from
    the translated bytes, is left out). *)
Record State : Type := mkState {
  pdfFile : option File;
  translatedPdfBytes : option string;
  settings : Settings;
  status : option Status;
  progressMessage : string;
  view : View
}.

Definition initial : State :=
  mkState None None
          (mkSettings "Spanish" Gemini "http://localhost:11434/api/generate" true)
          None "" Upload.

(** [handleFileChange]; [files] is [event.target.files]. *)
Definition handleFileChange (files : list File) (s : State) : State :=
  match files with
  | file :: _ =>
      if String.eqb (type file) "application/pdf"
      then mkState (Some file) (translatedPdfBytes s) (settings s) None
                   (progressMessage s) (view s)
      else mkState None (translatedPdfBytes s) (settings s)
                   (Some (mkStatus Error "Please select a valid PDF file."))
                   (progressMessage s) (view s)
  | [] =>
      mkState None (translatedPdfBytes s) (settings s)
              (Some (mkStatus Error "Please select a valid PDF file."))
              (progressMessage s) (view s)
  end.

Definition isTranslateDisabled (s : State) : bool :=
  match pdfFile s with
  | None => true
  | Some _ =>
      match translationService (settings s) with
      | Ollama => String.eqb (ollamaUrl (settings s)) ""
      | Gemini => false
      end
  end.

Definition handleReset (s : State) : State :=
  mkState None None (settings s) None "" Upload.

(** The setters of the language, the service, the URL and the
    anonymisation box. *)
Definition setSettings (st : Settings) (s : State) : State :=
  mkState (pdfFile s) (translatedPdfBytes s) st (status s) (progressMessage s) (view s).

(** The [download] attribute of the link of the result view. *)
Definition downloadName (s : State) : option string :=
  match pdfFile s with
  | Some file =>
      Some (replace (name file) ".pdf" ("_" ++ targetLanguage (settings s) ++ ".pdf"))
  | None => None
  end.

Section Translate.

(** Loading and rendering the file gives its pages or throws; saving gives
    the bytes of the new document from what was done to it. *)
Variable env : Collaborators.
Variable load : File -> Outcome (list Page).
Variable save : list Event -> string.

(** The state [handleTranslate] leaves when its callback has run to the
    end (the translating view it shows meanwhile renders no control). *)
Definition translated (s : State) : State :=
  match pdfFile s with
  | None => s
  | Some file =>
      match load file with
      | Throw e =>
          mkState (pdfFile s) None (settings s)
                  (Some (mkStatus Error ("An error occurred: " ++ e))) "" Upload
      | Return pages =>
          match handleTranslate env (settings s) pages with
          | (Some msg, _) =>
              mkState (pdfFile s) None (settings s) (Some (mkStatus Error msg)) "" Upload
          | (None, evs) =>
              mkState (pdfFile s) (Some (save evs)) (settings s) None "" Result
          end
      end
  end.

(** What the rendered controls let happen: the upload view has the file
    input, the settings and the Translate button, enabled unless
    [isTranslateDisabled]; the result view has the reset button. *)
Inductive step : State -> State -> Prop :=
| FileChosen (s : State) (files : list File) :
    view s = Upload -> step s (handleFileChange files s)
| SettingsChanged (s : State) (st : Settings) :
    view s = Upload -> step s (setSettings st s)
| TranslateClicked (s : State) :
    view s = Upload -> isTranslateDisabled s = false -> step s (translated s)
| ResetClicked (s : State) :
    view s = Result -> step s (handleReset s).

Inductive reachable : State -> Prop :=
| reachable_initial : reachable initial
| reachable_step (s s' : State) : reachable s -> step s s' -> reachable s'.

End Translate.

End App.

(** What holds of every state the controls of the component can lead
    to. *)
Definition Settled (s : App.State) : Prop :=
  App.view s <> App.Translating
  /\ App.progressMessage s = ""
  /\ (forall file, App.pdfFile s = Some file -> App.type file = "application/pdf")
  /\ (App.view s = App.Upload -> App.translatedPdfBytes s = None)
  /\ (App.view s = App.Result ->
      App.pdfFile s <> None /\ App.translatedPdfBytes s <> None /\ App.status s = None).

(** A drawing call as the page loop makes them: a white rectangle, or a
    text in one of the twelve text fonts at a size of 4 or more. *)
Definition wellFormedOp (op : DrawOp) : Prop :=
  match op with
  | DrawRectangle _ _ _ _ c => c = rgb 1 1 1
  | DrawText _ _ _ font size _ => In font textFonts /\ (4 <= size)%Q
  end.

(** * Properties *)

(** ** Strings *)

Section StringFacts.

Lemma append_empty_r (s : string) : s ++ "" = s.
Proof. induction s as [|c s IH]; simpl; [reflexivity | now rewrite IH]. Qed.

Lemma append_assoc (a b c : string) : (a ++ b) ++ c = a ++ (b ++ c).
Proof. induction a as [|x a IH]; simpl; [reflexivity | now rewrite IH]. Qed.

Lemma prefix_append (sub post : string) : String.prefix sub (sub ++ post) = true.
Proof.
  induction sub as [|c sub IH]; simpl.
  - now destruct post.
  - destruct (ascii_dec c c) as [_|ne]; [exact IH | now elim ne].
Qed.

Lemma prefix_split (sub s : string) :
  String.prefix sub s = true -> exists post, s = sub ++ post.
Proof.
  revert s; induction sub as [|c sub IH]; intros s H.
  - now exists s.
  - destruct s as [|d s]; simpl in H; [discriminate|].
    destruct (ascii_dec c d) as [->|_]; [|discriminate].
    destruct (IH _ H) as [post ->]. now exists post.
Qed.

Lemma includes_unfold (s sub : string) :
  includes s sub =
  String.prefix sub s || match s with "" => false | String _ s' => includes s' sub end.
Proof. now destruct s. Qed.

(** [includes] decides [Contains]. *)
Lemma includes_Contains (s sub : string) : includes s sub = true <-> Contains s sub.
Proof.
  split.
  - induction s as [|c s IH]; rewrite includes_unfold; intros H;
      apply orb_true_iff in H; destruct H as [H|H]; try discriminate.
    + destruct (prefix_split _ _ H) as [post E]. now exists "", post.
    + destruct (prefix_split _ _ H) as [post E]. now exists "", post.
    + destruct (IH H) as (pre & post & ->). now exists (String c pre), post.
  - intros (pre & post & ->). induction pre as [|c pre IH].
    + rewrite includes_unfold. simpl. now rewrite prefix_append.
    + change (String c pre ++ sub ++ post) with (String c (pre ++ sub ++ post)).
      rewrite includes_unfold, IH. apply orb_true_r.
Qed.

Lemma not_includes_Contains (s sub : string) : includes s sub = false <-> ~ Contains s sub.
Proof.
  rewrite <- includes_Contains. destruct (includes s sub); split; intros H;
    try reflexivity; try discriminate; now elim H.
Qed.

Lemma lower_upper_ascii (c : ascii) : lowerAscii (upperAscii c) = lowerAscii c.
Proof. destruct c as [[] [] [] [] [] [] [] []]; reflexivity. Qed.

Lemma lower_lower_ascii (c : ascii) : lowerAscii (lowerAscii c) = lowerAscii c.
Proof. destruct c as [[] [] [] [] [] [] [] []]; reflexivity. Qed.

Lemma toLowerCase_toUpperCase (s : string) : toLowerCase (toUpperCase s) = toLowerCase s.
Proof.
  induction s as [|c s IH]; simpl; [reflexivity|].
  now rewrite lower_upper_ascii, IH.
Qed.

Lemma toLowerCase_idempotent (s : string) : toLowerCase (toLowerCase s) = toLowerCase s.
Proof.
  induction s as [|c s IH]; simpl; [reflexivity|].
  now rewrite lower_lower_ascii, IH.
Qed.

End StringFacts.

(** ** Font resolution *)

Lemma getFont_lower (a b : string) :
  toLowerCase a = toLowerCase b -> getFont a = getFont b.
Proof. unfold getFont. now intros ->. Qed.

(** C4.  [getFont] is a total function of the lower-cased name: names that
    differ only in case resolve alike; the font is one of the twelve
    family/style variants; the family is Serif when the lower-cased name
    contains "times", else Monospace when it contains "courier", else
    SansSerif; the style is bold exactly when it contains "bold" and italic
    exactly when it contains "italic" or "oblique"; and the three named fonts
    resolve to Serif/BoldItalic, SansSerif/Regular and Monospace/Bold. *)
Theorem getFont_resolves (name : string) :
  let lower := toLowerCase name in
  (forall other, toLowerCase other = lower -> getFont other = getFont name)
  /\ getFont (toUpperCase name) = getFont name
  /\ getFont lower = getFont name
  /\ (exists family style,
        variantOf (getFont name) = Some (family, style)
        /\ (Contains lower "times" -> family = Serif)
        /\ (~ Contains lower "times" -> Contains lower "courier" -> family = Monospace)
        /\ (~ Contains lower "times" -> ~ Contains lower "courier" -> family = SansSerif)
        /\ (style = Bold \/ style = BoldItalic <-> Contains lower "bold")
        /\ (style = Italic \/ style = BoldItalic <->
            Contains lower "italic" \/ Contains lower "oblique"))
  /\ variantOf (getFont "TimesNewRomanPS-BoldItalicMT") = Some (Serif, BoldItalic)
  /\ variantOf (getFont "Arial") = Some (SansSerif, Regular)
  /\ variantOf (getFont "CourierNewPS-BoldMT") = Some (Monospace, Bold).
Proof.
  intros lower. split; [|split; [|split; [|split]]].
  - intros other H. now apply getFont_lower.
  - apply getFont_lower, toLowerCase_toUpperCase.
  - apply getFont_lower, toLowerCase_idempotent.
  - unfold getFont. fold lower.
    pose proof (includes_Contains lower "times") as Ht.
    pose proof (includes_Contains lower "courier") as Hc.
    pose proof (includes_Contains lower "bold") as Hb.
    pose proof (includes_Contains lower "italic") as Hi.
    pose proof (includes_Contains lower "oblique") as Ho.
    destruct (includes lower "times"), (includes lower "courier"),
      (includes lower "bold"), (includes lower "italic"), (includes lower "oblique");
      simpl; eexists; eexists; (split; [reflexivity|]);
      intuition (try discriminate; try congruence).
  - repeat split; reflexivity.
Qed.

(** ** The sentinel protocol: join, then split *)

Section SentinelRoundTrip.

Lemma splitFrom_skip (sep a rest piece : string) :
  splitFrom sep (a ++ rest) (String.length a) piece = splitFrom sep rest 0 piece.
Proof. induction a as [|c a IH]; simpl; [now destruct rest | exact IH]. Qed.

Lemma prefix_cons (c d : ascii) (s t : string) :
  String.prefix (String c s) (String d t) = Ascii.eqb c d && String.prefix s t.
Proof.
  cbn [String.prefix]. destruct (ascii_dec c d) as [->|ne].
  - now rewrite Ascii.eqb_refl.
  - apply Ascii.eqb_neq in ne. now rewrite ne.
Qed.

Lemma prefix_empty_r (c : ascii) (s : string) : String.prefix (String c s) "" = false.
Proof. reflexivity. Qed.

Lemma prefix_empty_l (s : string) : String.prefix "" s = true.
Proof. now destruct s. Qed.

Ltac decide_chars :=
  repeat match goal with
         | H : context [Ascii.eqb ?a ?b] |- _ =>
             destruct (Ascii.eqb_spec a b); subst; cbn [andb] in H
         | |- context [Ascii.eqb ?a ?b] =>
             destruct (Ascii.eqb_spec a b); subst; cbn [andb]
         end.

(** An occurrence of the sentinel that starts inside a piece and runs into
    the separator after it needs the piece to end with [" |||"]. *)
Lemma no_straddle (e rest : string) :
  e <> "" ->
  String.prefix sentinel e = false ->
  String.eqb e " |||" = false ->
  String.prefix sentinel (e ++ sentinel ++ rest) = false.
Proof.
  unfold sentinel. intros Hne Hp He.
  destruct e as [|c1 [|c2 [|c3 [|c4 [|c5 e]]]]]; [now elim Hne| | | | |];
    cbn [append String.eqb] in Hp, He |- *;
    rewrite ?prefix_cons, ?prefix_empty_r, ?prefix_empty_l in Hp |- *;
    decide_chars; try reflexivity; try discriminate; try congruence.
Qed.

Lemma split_piece (e rest piece : string) :
  includes e sentinel = false ->
  endsWith e " |||" = false ->
  splitFrom sentinel (e ++ sentinel ++ rest) 0 piece
  = (piece ++ e) :: splitFrom sentinel rest 0 "".
Proof.
  revert piece. induction e as [|c e IH]; intros piece Hi He.
  - rewrite append_empty_r.
    change ("" ++ sentinel ++ rest) with (String " " ("||| " ++ rest)).
    cbn [splitFrom].
    change (String " " ("||| " ++ rest)) with (sentinel ++ rest).
    rewrite prefix_append.
    change (String.length sentinel - 1)%nat with (String.length "||| ").
    now rewrite splitFrom_skip.
  - rewrite includes_unfold in Hi. apply orb_false_iff in Hi. destruct Hi as [Hp Hi].
    cbn [endsWith] in He. apply orb_false_iff in He. destruct He as [Heq He].
    change (String c e ++ sentinel ++ rest) with (String c (e ++ sentinel ++ rest)).
    cbn [splitFrom].
    change (String c (e ++ sentinel ++ rest)) with (String c e ++ sentinel ++ rest).
    rewrite no_straddle by (assumption || discriminate).
    rewrite IH by assumption.
    now rewrite append_assoc.
Qed.

Lemma split_last (e piece : string) :
  includes e sentinel = false ->
  splitFrom sentinel e 0 piece = [piece ++ e].
Proof.
  revert piece. induction e as [|c e IH]; intros piece Hi.
  - now rewrite append_empty_r.
  - rewrite includes_unfold in Hi. apply orb_false_iff in Hi. destruct Hi as [Hp Hi].
    cbn [splitFrom]. rewrite Hp, IH by assumption.
    now rewrite append_assoc.
Qed.

End SentinelRoundTrip.

(** C8 (as the code has it).  For a non-empty sequence of strings none of
    which contains the sentinel, and none of which, the last one apart,
    ends with [" |||"] (the sentinel without its final space), splitting
    the joined string on the sentinel gives back the sequence. *)
Theorem split_join_round_trip (texts : list string) :
  (0 < List.length texts)%nat ->
  forallb (fun t => negb (includes t sentinel)) texts = true ->
  forallb (fun t => negb (endsWith t " |||")) (removelast texts) = true ->
  split sentinel (join sentinel texts) = texts.
Proof.
  unfold split, join.
  induction texts as [|e rest IH]; intros Hlen Hinc Hend; [inversion Hlen|].
  cbn [forallb] in Hinc. apply andb_true_iff in Hinc. destruct Hinc as [Hi Hinc].
  apply negb_true_iff in Hi.
  destruct rest as [|e2 rest].
  - cbn [String.concat]. now rewrite split_last.
  - change (removelast (e :: e2 :: rest)) with (e :: removelast (e2 :: rest)) in Hend.
    cbn [forallb] in Hend. apply andb_true_iff in Hend. destruct Hend as [He Hend].
    apply negb_true_iff in He.
    change (String.concat sentinel (e :: e2 :: rest))
      with (e ++ sentinel ++ String.concat sentinel (e2 :: rest)).
    rewrite split_piece by assumption.
    rewrite IH; [reflexivity | simpl; lia | assumption | assumption].
Qed.

Lemma split_join_round_trip_witness :
  split sentinel (join sentinel ["one"; "two |"; "three |||"]) = ["one"; "two |"; "three |||"].
Proof.
  apply (split_join_round_trip ["one"; "two |"; "three |||"]);
    [vm_compute; lia | reflexivity | reflexivity].
Defined.

(** C8 as stated fails: neither text contains the sentinel, yet the first
    one together with the separator after it makes an earlier occurrence,
    and the split gives other pieces. *)
Lemma split_join_boundary_counterexample :
  (0 < List.length ["a |||"; " b"])%nat
  /\ forallb (fun t => negb (includes t sentinel)) ["a |||"; " b"] = true
  /\ split sentinel (join sentinel ["a |||"; " b"]) = ["a"; "|||  b"]
  /\ split sentinel (join sentinel ["a |||"; " b"]) <> ["a |||"; " b"].
Proof.
  split; [vm_compute; lia|]. split; [reflexivity|]. split; [reflexivity|].
  vm_compute. discriminate.
Qed.

(** ** Numbers *)

Section NumberFacts.

Local Open Scope Q_scope.

Lemma Qltb_lt (a b : Q) : Qltb a b = true <-> a < b.
Proof.
  unfold Qltb. rewrite negb_true_iff. split.
  - intros H. apply Qnot_le_lt. intros Hle.
    apply Qle_bool_iff in Hle. congruence.
  - intros H. destruct (Qle_bool b a) eqn:E; [|reflexivity].
    apply Qle_bool_iff in E. now apply Qlt_not_le in H.
Qed.

Lemma Qltb_ge (a b : Q) : Qltb a b = false <-> b <= a.
Proof.
  unfold Qltb. rewrite negb_false_iff. apply Qle_bool_iff.
Qed.


End NumberFacts.

(** ** Fitting the font size *)

(** C3.  The fitted size is the original height [H], replaced by
    [H * (W / M) * 0.95] when the measured width [M] exceeds the original
    width [W] and [W > 0], and then raised to at least 4; it never exceeds
    the larger of [H] and 4.  With [W = 100], [H = 12]: [M = 150] gives 7.6
    and [M = 40] gives 12; with [W = 100], [H = 3] every measured width gives
    4.  The three examples also hold bit for bit on binary64 numbers. *)
Theorem fitSize_spec (W H M : Q) :
  ((W < M /\ 0 < W -> fitSize W H M == Qmax (H * (W / M) * 0.95) 4)
   /\ (~ (W < M /\ 0 < W) -> fitSize W H M == Qmax H 4)
   /\ 4 <= fitSize W H M
   /\ (0 <= H -> fitSize W H M <= Qmax H 4)
   /\ fitSize 100 12 150 == 7.6
   /\ fitSize 100 12 40 == 12
   /\ fitSize 100 3 M == 4
   /\ fitSizeF 100 12 150 = 0x1.e666666666666p+2%float
   /\ fitSizeF 100 12 40 = 12%float
   /\ fitSizeF 100 3 400 = 4%float
   /\ fitSizeF 100 3 40 = 4%float)%Q.
Proof.
  assert (Hshrink : forall h, W < M -> 0 < W -> 0 <= h -> h * (W / M) * 0.95 <= h).
  { intros h HWM HW Hh.
    assert (HM : 0 < M) by (eapply Qlt_trans; eassumption).
    assert (Hr : W / M <= 1).
    { apply Qle_shift_div_r; [exact HM|]. rewrite Qmult_1_l. now apply Qlt_le_weak. }
    assert (Hr0 : 0 <= W / M).
    { apply Qle_shift_div_l; [exact HM|]. rewrite Qmult_0_l. now apply Qlt_le_weak. }
    assert (Hm : h * (W / M) <= h * 1).
    { rewrite !(Qmult_comm h). now apply Qmult_le_compat_r. }
    assert (Hm0 : 0 <= h * (W / M)) by now apply Qmult_le_0_compat.
    set (x := h * (W / M)) in *. lra. }
  unfold fitSize.
  split.
  { intros [HWM HW]. apply Qltb_lt in HWM, HW. now rewrite HWM, HW. }
  split.
  { intros Hn. destruct (Qltb W M) eqn:E1, (Qltb 0 W) eqn:E2; simpl; try reflexivity.
    elim Hn. split; now apply Qltb_lt. }
  split.
  { apply Q.le_max_r. }
  split.
  { intros HH. destruct (Qltb W M) eqn:E1, (Qltb 0 W) eqn:E2; simpl;
      try apply Qle_refl.
    apply Qltb_lt in E1, E2.
    apply Q.max_le_compat_r. now apply Hshrink. }
  split; [reflexivity|].
  split; [reflexivity|].
  split.
  { destruct (Qltb 100 M) eqn:E1; simpl.
    - apply Qltb_lt in E1. apply Q.max_r.
      assert (HM : 0 < M) by (eapply Qlt_trans; [|exact E1]; reflexivity).
      assert (Hr : 100 / M <= 1).
      { apply Qle_shift_div_r; [exact HM|]. rewrite Qmult_1_l. now apply Qlt_le_weak. }
      set (x := 100 / M) in *. lra.
    - reflexivity. }
  repeat split; vm_compute; reflexivity.
Qed.

(** ** Runs of the page computations *)

Section Runs.

Lemma bind_return {A B : Type} (m : M A) (k : A -> M B) (fs fs' : Fonts)
    (a : A) (evs : list Event) :
  m fs = mkRun (Return a) fs' evs ->
  bind m k fs = mkRun (outcome (k a fs')) (fonts (k a fs')) (evs ++ events (k a fs'))%list.
Proof. unfold bind. now intros ->. Qed.

Lemma bind_throw {A B : Type} (m : M A) (k : A -> M B) (fs fs' : Fonts)
    (e : string) (evs : list Event) :
  m fs = mkRun (Throw e) fs' evs ->
  bind m k fs = mkRun (Throw e) fs' evs.
Proof. unfold bind. now intros ->. Qed.

Lemma bind_ext {A B : Type} (m : M A) (k1 k2 : A -> M B) (fs : Fonts) :
  (forall a fs', k1 a fs' = k2 a fs') -> bind m k1 fs = bind m k2 fs.
Proof.
  intros H. unfold bind. destruct (outcome (m fs)); [|reflexivity].
  now rewrite H.
Qed.

Lemma drawOps_app (a b : list Event) : drawOps (a ++ b) = (drawOps a ++ drawOps b)%list.
Proof.
  induction a as [|e a IH]; [reflexivity|].
  destruct e; simpl; now rewrite IH.
Qed.

Lemma requests_app (a b : list Event) : requests (a ++ b) = (requests a ++ requests b)%list.
Proof.
  induction a as [|e a IH]; [reflexivity|].
  destruct e; simpl; now rewrite IH.
Qed.

Lemma pixelReads_app (a b : list Event) :
  pixelReads (a ++ b) = (pixelReads a ++ pixelReads b)%list.
Proof.
  induction a as [|e a IH]; [reflexivity|].
  destruct e; simpl; now rewrite IH.
Qed.

Variables (cv : Canvas) (vp : Viewport).

Lemma samplePointsLoop_run (bg : Pixel) (points : list (Q * Q)) (fc : Color) (fs : Fonts) :
  samplePointsLoop cv bg points fc false fs
  = mkRun (Return match find (distinctFrom bg) (map (pixelUnder cv) points) with
                  | Some p => (colorOfPixel p, true)
                  | None => (fc, false)
                  end)
          fs (readsUntilDistinct cv bg points).
Proof.
  induction points as [|point rest IH]; [reflexivity|].
  cbn [samplePointsLoop map find readsUntilDistinct].
  change (pixelUnder cv point)
    with (imageData cv (fst (clampPoint cv point)) (snd (clampPoint cv point))).
  destruct (clampPoint cv point) as [sx sy]. cbn [fst snd].
  unfold bind, getImageData. cbn [outcome fonts events].
  change (distinctFrom bg (imageData cv sx sy))
    with (sqrtExceeds (sumOfSquares (imageData cv sx sy) bg) 50).
  destruct (sqrtExceeds (sumOfSquares (imageData cv sx sy) bg) 50).
  - reflexivity.
  - rewrite IH. reflexivity.
Qed.

Lemma sampleColor_run (t : TextItem) (fs : Fonts) :
  sampleColor cv vp t fs = mkRun (Return (sampledColor cv vp t)) fs (sampleEvents cv vp t).
Proof.
  unfold sampleColor, sampledColor, sampleEvents, chosenColor, candidatePixels.
  fold (bgPixel cv vp t).
  unfold bind at 1. unfold getImageData at 1. cbn [outcome fonts events].
  fold (bgPixel cv vp t).
  rewrite (bind_return _ _ _ _ _ _ (samplePointsLoop_run _ _ _ _)).
  destruct (find (distinctFrom (bgPixel cv vp t))
                 (map (pixelUnder cv) (samplePoints vp t))) as [p|].
  - cbn. now rewrite app_nil_r.
  - cbn [negb andb]. destruct (Qltb (meanOf (bgPixel cv vp t)) 128);
      cbn; now rewrite app_nil_r.
Qed.

Lemma styleItem_run (it : Item) (fs : Fonts) :
  styleItem cv vp it fs = mkRun (Return (styled cv vp it)) fs (itemEvents cv vp it).
Proof.
  destruct it as [t|]; [|reflexivity].
  unfold styleItem, styled, itemEvents, hasText.
  destruct (String.length (trim (str t)) =? 0)%nat; [reflexivity|].
  cbn [negb].
  rewrite (bind_return _ _ _ _ _ _ (sampleColor_run t fs)).
  cbn. now rewrite app_nil_r.
Qed.

Lemma mapM_styleItem_run (its : list Item) (fs : Fonts) :
  mapM (styleItem cv vp) its fs
  = mkRun (Return (map (styled cv vp) its)) fs (flat_map (itemEvents cv vp) its).
Proof.
  induction its as [|it its IH]; [reflexivity|].
  cbn [mapM map flat_map].
  rewrite (bind_return _ _ _ _ _ _ (styleItem_run it fs)).
  rewrite (bind_return _ _ _ _ _ _ IH).
  cbn. now rewrite app_nil_r.
Qed.

End Runs.

(** ** Colour sampling *)

Section Sampling.



(** Every candidate point is read inside a canvas of positive size. *)
Lemma clampPoint_inCanvas (cv : Canvas) (point : Q * Q) :
  (0 < cwidth cv)%Z -> (0 < cheight cv)%Z ->
  inCanvas cv (fst (clampPoint cv point)) (snd (clampPoint cv point)) = true.
Proof.
  intros Hw Hh. unfold inCanvas, clampPoint. cbn [fst snd].
  rewrite !andb_true_iff, !Z.leb_le, !Z.ltb_lt. lia.
Qed.

Lemma candidate_reads_inCanvas (cv : Canvas) (bg : Pixel) (points : list (Q * Q)) :
  (0 < cwidth cv)%Z -> (0 < cheight cv)%Z ->
  forallb (fun xy => inCanvas cv (fst xy) (snd xy))
          (pixelReads (readsUntilDistinct cv bg points)) = true.
Proof.
  intros Hw Hh. induction points as [|point rest IH]; [reflexivity|].
  cbn [readsUntilDistinct pixelReads forallb fst snd].
  rewrite clampPoint_inCanvas by assumption.
  destruct (distinctFrom bg (pixelUnder cv point)); [reflexivity | exact IH].
Qed.

(** The background point is read at a row of the canvas and at a column
    that is not negative. *)
Lemma background_read_bounds (cv : Canvas) (vp : Viewport) (t : TextItem) :
  (0 < cheight cv)%Z ->
  (0 <= bgSampleX vp t /\ 0 <= bgSampleY cv vp t < cheight cv)%Z.
Proof. unfold bgSampleX, bgSampleY. lia. Qed.

(** The column of the background point has no upper clamp: a run that
    starts five pixels or more right of the canvas is compared with a point
    outside it. *)
Lemma background_read_unclamped (cv : Canvas) (vp : Viewport) (t : TextItem) :
  (0 < cwidth cv)%Z ->
  (cwidth cv <= Qfloor (canvasX vp t - 5))%Z ->
  inCanvas cv (bgSampleX vp t) (bgSampleY cv vp t) = false.
Proof.
  intros Hw Hx. unfold inCanvas, bgSampleX.
  assert (E : (Z.max 0 (Qfloor (canvasX vp t - 5)) <? cwidth cv)%Z = false)
    by (apply Z.ltb_ge; lia).
  rewrite E. now rewrite andb_false_r.
Qed.






End Sampling.


(** C7 at a run placed right of the page (canvas x = 3000 on a canvas 1836
    pixels wide): the background point is read at column 2995, outside the
    canvas; the candidate point is read at the clamped column 1835.  The read
    outside yields transparent black and the sampler still returns a
    colour. *)
Theorem background_read_outside_canvas :
  let r := sampleColor Sample.canvas Sample.viewport Sample.farRun [] in
  cwidth Sample.canvas = 1836%Z
  /\ bgSampleX Sample.viewport Sample.farRun = 2995%Z
  /\ pixelReads (events r) = [(2995, 258); (1835, 258)]%Z
  /\ inCanvas Sample.canvas 2995 258 = false
  /\ inCanvas Sample.canvas 1835 258 = true
  /\ outcome r = Return (colorOfPixel Sample.ink).
Proof. repeat split; vm_compute; reflexivity. Qed.

(** ** The page body *)

Section PageFacts.

Variables (env : Collaborators) (st : Settings) (cv : Canvas) (vp : Viewport).

Lemma ltb_0_negb (n : nat) : (0 <? n)%nat = negb (n =? 0)%nat.
Proof. now destruct n. Qed.

Lemma strOf_styled (it : Item) :
  (0 <? String.length (trim (strOf (styled cv vp it))))%nat = hasText it.
Proof. destruct it as [t|]; [apply ltb_0_negb | reflexivity]. Qed.

(** [originalTexts] holds the texts of the surviving runs. *)
Lemma originalTexts_survivors (its : list Item) :
  filter (fun s => (0 <? String.length (trim s))%nat) (map strOf (map (styled cv vp) its))
  = map str (survivors its).
Proof.
  induction its as [|it its IH]; [reflexivity|].
  cbn [map filter]. rewrite strOf_styled, IH.
  destruct it as [t|]; [|reflexivity].
  cbn [survivors]. now destruct (hasText (Text t)).
Qed.

Lemma survivors_filter (its : list Item) : survivors (filter hasText its) = survivors its.
Proof.
  induction its as [|it its IH]; [reflexivity|].
  cbn [filter]. destruct it as [t|]; [|exact IH].
  destruct (hasText (Text t)) eqn:E; cbn [survivors]; rewrite E; now rewrite IH.
Qed.

Lemma survivors_nil_filter (its : list Item) :
  survivors its = [] -> filter hasText its = [].
Proof.
  induction its as [|it its IH]; [reflexivity|].
  cbn [filter survivors]. destruct it as [t|]; [|exact IH].
  destruct (hasText (Text t)); [discriminate | exact IH].
Qed.

Lemma itemEvents_filter (its : list Item) :
  flat_map (itemEvents cv vp) (filter hasText its) = flat_map (itemEvents cv vp) its.
Proof.
  induction its as [|it its IH]; [reflexivity|].
  cbn [filter flat_map]. destruct (hasText it) eqn:E.
  - cbn [flat_map]. now rewrite IH.
  - rewrite IH. destruct it as [t|]; cbn [itemEvents]; [now rewrite E | reflexivity].
Qed.

Lemma itemEvents_no_survivor (its : list Item) :
  survivors its = [] -> flat_map (itemEvents cv vp) its = [].
Proof.
  intros H. rewrite <- itemEvents_filter. now rewrite (survivors_nil_filter _ H).
Qed.

Lemma drawTranslated_run (t : TextItem) (c : Color) (text : string) (fs : Fonts) :
  exists fs' evs,
    drawTranslated env t c text fs
    = mkRun match paintWith env t c text with
            | Return _ => Return tt
            | Throw e => Throw e
            end fs' evs
    /\ drawOps evs = match paintWith env t c text with
                     | Return op => [op]
                     | Throw _ => []
                     end
    /\ requests evs = [] /\ pixelReads evs = [].
Proof.
  unfold drawTranslated, paintWith, bind, hasFont, call. cbn [outcome fonts events].
  destruct (existsb (StandardFonts_eqb (getFont (fontName t))) fs);
    cbn [ret embedFont outcome fonts events];
    destruct (widthOfTextAtSize env (getFont (fontName t)) text (height t)) as [w|e];
    cbn [outcome fonts events];
    try destruct (drawText env text (t4 (transform t)) (t5 (transform t))
                           (getFont (fontName t)) (fitSize (width t) (height t) w) c)
      as [u|e];
    cbn; eexists; eexists; (split; [reflexivity|]); repeat split.
Qed.

(** Items without text are passed over by the drawing loop. *)
Lemma drawItems_filter (its : list Item) (texts : list string) (idx : nat) (fs : Fonts) :
  drawItems env (map (styled cv vp) its) texts idx fs
  = drawItems env (map (styled cv vp) (filter hasText its)) texts idx fs.
Proof.
  revert idx fs. induction its as [|it its IH]; intros idx fs; [reflexivity|].
  cbn [map filter]. destruct it as [t|].
  - destruct (hasText (Text t)) eqn:E.
    + cbn [map drawItems styled item color]. rewrite E.
      destruct (0 <? String.length (trim (str t)))%nat; [|apply IH].
      apply bind_ext. intros _ fs1. apply bind_ext. intros next fs2. apply IH.
    + cbn [drawItems styled item color]. rewrite E. apply IH.
  - cbn [drawItems styled item color hasText]. apply IH.
Qed.

Lemma skipn_nth (texts : list string) (idx : nat) :
  (idx < List.length texts)%nat ->
  skipn idx texts = nth idx texts "" :: skipn (S idx) texts.
Proof.
  revert idx. induction texts as [|x texts IH]; intros idx H; [inversion H|].
  destruct idx as [|idx]; [reflexivity|].
  cbn [skipn nth]. apply IH. simpl in H. lia.
Qed.

(** The drawing loop pairs the surviving runs, in order, with the texts
    from [idx] on, and stops at the first text pdf-lib throws on. *)
Lemma drawItems_run (its : list Item) (texts : list string) (idx : nat) (fs : Fonts) :
  exists o fs' evs,
    drawItems env (map (styled cv vp) its) texts idx fs = mkRun o fs' evs
    /\ match pairFailure env cv vp (survivors its) (skipn idx texts) with
       | Some e => o = Throw e
       | None => exists n, o = Return n
       end
    /\ drawOps evs = pairedOps env cv vp (survivors its) (skipn idx texts)
    /\ requests evs = [] /\ pixelReads evs = [].
Proof.
  revert idx fs. induction its as [|it its IH]; intros idx fs.
  - exists (Return idx), fs, []. split; [reflexivity|].
    split; [|repeat split]. cbn [survivors pairFailure]. now exists idx.
  - destruct it as [t|]; [|apply IH].
    cbn [map drawItems styled item color survivors].
    destruct (hasText (Text t)) eqn:E; [|apply IH].
    assert (E' : (0 <? String.length (trim (str t)))%nat = true)
      by (rewrite ltb_0_negb; exact E).
    rewrite E'.
    rewrite (bind_return (emit (Draw (eraseOp t))) _ fs fs tt [Draw (eraseOp t)] eq_refl).
    cbv beta.
    destruct (idx <? List.length texts)%nat eqn:Hidx.
    + apply Nat.ltb_lt in Hidx.
      destruct (drawTranslated_run t (sampledColor cv vp t) (nth idx texts "") fs)
        as (fs1 & evs1 & R1 & D1 & Q1 & P1).
      rewrite (skipn_nth _ _ Hidx). cbn [pairedOps pairFailure]. unfold paintOutcome.
      destruct (paintWith env t (sampledColor cv vp t) (nth idx texts "")) as [op|e].
      * destruct (IH (S idx) fs1) as (o & fs2 & evs2 & R2 & O2 & D2 & Q2 & P2).
        assert (R1' : bind (drawTranslated env t (sampledColor cv vp t) (nth idx texts ""))
                           (fun _ => ret (S idx)) fs
                      = mkRun (Return (S idx)) fs1 (evs1 ++ [])%list)
          by (rewrite (bind_return _ _ _ _ _ _ R1); reflexivity).
        rewrite (bind_return _ _ _ _ _ _ R1'). cbv beta. rewrite R2.
        cbn [outcome fonts events].
        exists o, fs2. eexists. split; [reflexivity|]. split; [exact O2|].
        cbn [app drawOps requests pixelReads].
        rewrite !drawOps_app, !requests_app, !pixelReads_app, D1, D2, Q1, Q2, P1, P2.
        repeat split.
      * assert (R1' : bind (drawTranslated env t (sampledColor cv vp t) (nth idx texts ""))
                           (fun _ => ret (S idx)) fs
                      = mkRun (Throw e) fs1 evs1)
          by (now rewrite (bind_throw _ _ _ _ _ _ R1)).
        rewrite (bind_throw _ _ _ _ _ _ R1'). cbn [outcome fonts events].
        exists (Throw e), fs1. eexists. split; [reflexivity|]. split; [reflexivity|].
        cbn [app drawOps requests pixelReads]. rewrite D1, Q1, P1. repeat split.
    + apply Nat.ltb_ge in Hidx.
      destruct (IH idx fs) as (o & fs2 & evs2 & R2 & O2 & D2 & Q2 & P2).
      rewrite (bind_return (ret idx) _ fs fs idx [] eq_refl). cbv beta. rewrite R2.
      cbn [outcome fonts events].
      exists o, fs2. eexists. split; [reflexivity|].
      rewrite (skipn_all2 texts Hidx) in *.
      cbn [app pairedOps pairFailure drawOps requests pixelReads].
      rewrite D2, Q2, P2. repeat split.
      destruct (survivors its); exact O2.
Qed.

Lemma translate_run (request : string) (fs : Fonts) :
  exists ev,
    translate env st request fs = mkRun (responseTo env st request) fs [ev]
    /\ requests [ev] = [request] /\ drawOps [ev] = [] /\ pixelReads [ev] = [].
Proof.
  unfold translate, responseTo. destruct (translationService st);
    eexists; split; try reflexivity; repeat split.
Qed.

Lemma readsUntilDistinct_reads (bg : Pixel) (points : list (Q * Q)) :
  drawOps (readsUntilDistinct cv bg points) = []
  /\ requests (readsUntilDistinct cv bg points) = [].
Proof.
  induction points as [|point rest IH]; [now split|].
  cbn [readsUntilDistinct drawOps requests].
  destruct (distinctFrom bg (pixelUnder cv point)); [now split | exact IH].
Qed.

Lemma itemEvents_reads (its : list Item) :
  drawOps (flat_map (itemEvents cv vp) its) = []
  /\ requests (flat_map (itemEvents cv vp) its) = [].
Proof.
  induction its as [|it its [IHd IHr]]; [now split|].
  cbn [flat_map]. rewrite drawOps_app, requests_app, IHd, IHr, !app_nil_r.
  destruct it as [t|]; cbn [itemEvents]; [|now split].
  destruct (hasText (Text t)); [|now split].
  unfold sampleEvents. cbn [drawOps requests]. apply readsUntilDistinct_reads.
Qed.

Lemma length_0_nil {A : Type} (l : list A) : (List.length l =? 0)%nat = true -> l = [].
Proof. now destruct l. Qed.

(** One page: what is read, what is requested, what is drawn. *)
Lemma translatePage_run (its : list Item) (fs : Fonts) :
  let r := translatePage env st (mkPage its (Some cv) vp) fs in
  let runs := survivors its in
  let request := requestOf env st its in
  pixelReads (events r) = pixelReads (flat_map (itemEvents cv vp) its)
  /\ (runs = [] -> r = mkRun (Return tt) fs [])
  /\ (runs <> [] ->
      requests (events r) = [request]
      /\ match responseTo env st request with
         | Return response =>
             outcome r = match pairFailure env cv vp runs (split sentinel response) with
                         | Some e => Throw e
                         | None => Return tt
                         end
             /\ drawOps (events r) = pairedOps env cv vp runs (split sentinel response)
         | Throw e => outcome r = Throw e /\ drawOps (events r) = []
         end).
Proof.
  intros r runs request. subst r. unfold translatePage. cbn [items canvasContext viewport].
  destruct (List.length its =? 0)%nat eqn:E0.
  { apply length_0_nil in E0. subst its. split; [reflexivity|]. split; [reflexivity|].
    intros H. now elim H. }
  rewrite (bind_return _ _ _ _ _ _ (mapM_styleItem_run cv vp its fs)). cbv beta.
  rewrite originalTexts_survivors. fold runs.
  destruct (itemEvents_reads its) as [Hd Hr].
  destruct (List.length (map str runs) =? 0)%nat eqn:E1.
  { apply length_0_nil, map_eq_nil in E1. cbn [ret outcome fonts events].
    rewrite app_nil_r. split; [reflexivity|]. split.
    - intros _. now rewrite (itemEvents_no_survivor its E1).
    - intros H. now elim H. }
  assert (Hne : runs <> []) by (intros H; rewrite H in E1; discriminate).
  change (join sentinel (if anonymize st
                         then map (redactText env) (map str runs)
                         else map str runs)) with request.
  destruct (translate_run request fs) as (ev & T & Tq & Td & Tp).
  destruct (responseTo env st request) as [response|e] eqn:Eresp.
  - rewrite (bind_return _ _ _ _ _ _ T). cbv beta.
    destruct (drawItems_run its (split sentinel response) 0 fs)
      as (o & fs' & evs & R & O & D & Rq & P).
    cbn [skipn] in O, D. fold runs in O, D.
    assert (Hrun : exists o',
               bind (drawItems env (map (styled cv vp) its) (split sentinel response) 0)
                    (fun _ => ret tt) fs = mkRun o' fs' evs
               /\ o' = match pairFailure env cv vp runs (split sentinel response) with
                       | Some e => Throw e
                       | None => Return tt
                       end).
    { destruct (pairFailure env cv vp runs (split sentinel response)) as [e|].
      - subst o. exists (Throw e). split; [|reflexivity].
        now rewrite (bind_throw _ _ _ _ _ _ R).
      - destruct O as [n ->]. exists (Return tt). split; [|reflexivity].
        rewrite (bind_return _ _ _ _ _ _ R). cbn [ret outcome fonts events].
        now rewrite app_nil_r. }
    destruct Hrun as (o' & -> & ->). cbn [outcome fonts events].
    rewrite !pixelReads_app, !requests_app, !drawOps_app.
    rewrite Hd, Hr, Tq, Td, Tp, D, Rq, P. cbn [app drawOps requests pixelReads].
    rewrite !app_nil_r.
    split; [reflexivity|]. split; [intros H; now elim Hne|].
    intros _. repeat split.
  - rewrite (bind_throw _ _ _ _ _ _ T). cbn [outcome fonts events].
    rewrite !pixelReads_app, !requests_app, !drawOps_app.
    rewrite Hd, Hr, Tq, Td, Tp, !app_nil_r.
    split; [reflexivity|]. split; [intros H; now elim Hne|].
    intros _. repeat split.
Qed.

End PageFacts.

(** Removing the items without text changes nothing in the run of a page. *)
Lemma translatePage_withoutEmpty (env : Collaborators) (st : Settings) (page : Page) (fs : Fonts) :
  translatePage env st page fs = translatePage env st (withoutEmpty page) fs.
Proof.
  destruct page as [its ctx vp']. unfold withoutEmpty, translatePage.
  cbn [items canvasContext viewport].
  destruct (List.length its =? 0)%nat eqn:E0.
  { apply length_0_nil in E0. now subst its. }
  destruct ctx as [cv'|]; [|now destruct (List.length (filter hasText its) =? 0)%nat].
  destruct (List.length (filter hasText its) =? 0)%nat eqn:E1.
  - apply length_0_nil in E1.
    assert (Hs : survivors its = []) by (rewrite <- survivors_filter, E1; reflexivity).
    rewrite (bind_return _ _ _ _ _ _ (mapM_styleItem_run cv' vp' its fs)). cbv beta.
    rewrite (originalTexts_survivors cv' vp' its).
    rewrite Hs. cbn [map List.length Nat.eqb ret outcome fonts events].
    rewrite <- (itemEvents_filter cv' vp' its), E1. reflexivity.
  - rewrite (bind_return _ _ _ _ _ _ (mapM_styleItem_run cv' vp' its fs)).
    rewrite (bind_return _ _ _ _ _ _ (mapM_styleItem_run cv' vp' (filter hasText its) fs)).
    cbv beta.
    rewrite !(originalTexts_survivors cv'), survivors_filter.
    rewrite (itemEvents_filter cv' vp' its).
    destruct (List.length (map str (survivors its)) =? 0)%nat; [reflexivity|].
    set (req := join sentinel _).
    rewrite (bind_ext (translate env st req) _
               (fun translatedFullText =>
                  drawItems env (map (styled cv' vp') (filter hasText its))
                            (split sentinel translatedFullText) 0 ;;
                  ret tt) fs); [reflexivity|].
    intros response fs'. unfold bind. now rewrite (drawItems_filter env cv' vp' its).
Qed.

(** ** Pairing runs with translated texts *)

Section Pairing.

Variables (env : Collaborators) (cv : Canvas) (vp : Viewport).

Lemma combine_nil_r {A B : Type} (l : list A) : combine l (@nil B) = [].
Proof. now destruct l. Qed.

(** A painted text was measured, and is drawn where the run was, at the
    fitted size, in the sampled colour. *)
Lemma paintOutcome_inv (t : TextItem) (text : string) (op : DrawOp) :
  paintOutcome env cv vp t text = Return op ->
  exists textWidth,
    widthOfTextAtSize env (getFont (fontName t)) text (height t) = Return textWidth
    /\ op = DrawText text (t4 (transform t)) (t5 (transform t)) (getFont (fontName t))
                     (fitSize (width t) (height t) textWidth) (sampledColor cv vp t).
Proof.
  unfold paintOutcome, paintWith.
  destruct (widthOfTextAtSize env (getFont (fontName t)) text (height t)) as [w|e];
    [|discriminate].
  destruct (drawText env text _ _ _ _ _); [|discriminate].
  intros H. injection H as <-. now exists w.
Qed.

Lemma pairFailure_painted (runs : list TextItem) (texts : list string) :
  pairFailure env cv vp runs texts = None ->
  Forall (fun p => exists op,
            paintOutcome env cv vp (fst p) (snd p) = Return op
            /\ erasePaint env cv vp p = [eraseOp (fst p); op])
         (combine runs texts).
Proof.
  revert texts. induction runs as [|t runs IH]; intros texts H; [constructor|].
  destruct texts as [|text texts]; [constructor|].
  cbn [pairFailure] in H. cbn [combine].
  destruct (paintOutcome env cv vp t text) as [op|e] eqn:E; [|discriminate].
  constructor; [|now apply IH].
  exists op. unfold erasePaint. cbn [fst snd]. now rewrite E.
Qed.

(** With no failure, the paired runs come first, each erased then painted;
    the runs left without a text follow, each only erased. *)
Lemma pairedOps_closed_form (runs : list TextItem) (texts : list string) :
  pairFailure env cv vp runs texts = None ->
  pairedOps env cv vp runs texts
  = (flat_map (erasePaint env cv vp) (combine runs texts)
     ++ map eraseOp (skipn (List.length texts) runs))%list.
Proof.
  revert texts. induction runs as [|t runs IH]; intros texts H.
  - now rewrite skipn_nil.
  - destruct texts as [|text texts]; cbn [pairedOps pairFailure] in *.
    + rewrite IH, combine_nil_r by now destruct runs. reflexivity.
    + cbn [combine flat_map erasePaint fst snd List.length skipn].
      change (erasePaint env cv vp (t, text))
        with (eraseOp t :: match paintOutcome env cv vp t text with
                           | Return op => [op]
                           | Throw _ => []
                           end).
      destruct (paintOutcome env cv vp t text) as [op|e]; [|discriminate].
      rewrite IH by assumption. reflexivity.
Qed.

(** Only the texts that get a run matter. *)
Lemma pairedOps_used (runs : list TextItem) (texts : list string) :
  pairedOps env cv vp runs texts
  = pairedOps env cv vp runs (firstn (List.length runs) texts)
  /\ pairFailure env cv vp runs texts
     = pairFailure env cv vp runs (firstn (List.length runs) texts).
Proof.
  revert texts. induction runs as [|t runs IH]; intros texts; [now split|].
  destruct texts as [|text texts]; [now split|].
  cbn [List.length firstn pairedOps pairFailure].
  destruct (IH texts) as [<- <-]. now split.
Qed.

Lemma pairedOps_surplus (runs : list TextItem) (texts : list string) :
  (List.length runs <= List.length texts)%nat ->
  pairFailure env cv vp runs texts = None ->
  pairedOps env cv vp runs texts
  = flat_map (erasePaint env cv vp) (combine runs (firstn (List.length runs) texts)).
Proof.
  revert texts. induction runs as [|t runs IH]; intros texts H Hf; [reflexivity|].
  destruct texts as [|text texts]; [inversion H|].
  cbn [pairedOps pairFailure List.length firstn combine flat_map] in *.
  change (erasePaint env cv vp (t, text))
    with (eraseOp t :: match paintOutcome env cv vp t text with
                       | Return op => [op]
                       | Throw _ => []
                       end).
  destruct (paintOutcome env cv vp t text) as [op|e]; [|discriminate].
  rewrite IH by (assumption || lia). reflexivity.
Qed.

Lemma length_erasePaint (l : list (TextItem * string)) :
  Forall (fun p => exists op,
            paintOutcome env cv vp (fst p) (snd p) = Return op
            /\ erasePaint env cv vp p = [eraseOp (fst p); op]) l ->
  List.length (flat_map (erasePaint env cv vp) l) = (2 * List.length l)%nat.
Proof.
  induction 1 as [|p l (op & _ & E) _ IH]; [reflexivity|].
  cbn [flat_map List.length]. rewrite length_app, E, IH. cbn [List.length]. lia.
Qed.


Lemma survivors_spec (its : list Item) : map Text (survivors its) = filter hasText its.
Proof.
  induction its as [|it its IH]; [reflexivity|].
  destruct it as [t|]; cbn [survivors filter].
  - destruct (hasText (Text t)); cbn [map]; now rewrite IH.
  - cbn [hasText]. exact IH.
Qed.

End Pairing.

Lemma survivors_In (its : list Item) (t : TextItem) :
  In t (survivors its) <->
  In (Text t) its /\ String.length (trim (str t)) <> 0%nat.
Proof.
  induction its as [|it its IH]; [cbn; tauto|].
  destruct it as [u|]; cbn [survivors In].
  - destruct (hasText (Text u)) eqn:E; cbn [In]; rewrite IH;
      cbn [hasText] in E; [apply negb_true_iff in E | apply negb_false_iff in E];
      [apply Nat.eqb_neq in E | apply Nat.eqb_eq in E].
    + split.
      * intros [->|[H1 H2]]; [now split; [left|] | now split; [right|]].
      * intros [[H|H] H2]; [left; now injection H | right; now split].
    + split.
      * intros [H1 H2]. now split; [right|].
      * intros [[H|H] H2]; [injection H as ->; now elim H2 | now split].
  - rewrite IH. split.
    + intros [H1 H2]. now split; [right|].
    + intros [[H|H] H2]; [discriminate | now split].
Qed.

(** A page of blank items makes no event; a page that throws stops the
    document. *)
Example blank_page_run :
  translatePage (Sample.answering "uno") Sample.settings (Sample.page Sample.blankRuns) []
  = mkRun (Return tt) [] [].
Proof. reflexivity. Qed.

Lemma pageLoop_throw (env : Collaborators) (st : Settings) (page : Page)
    (rest : list Page) (fs : Fonts) (e : string) :
  outcome (translatePage env st page fs) = Throw e ->
  pageLoop env st (page :: rest) fs
  = mkRun (Throw e) (fonts (translatePage env st page fs))
          (events (translatePage env st page fs)).
Proof. intros H. cbn [pageLoop]. unfold bind. now rewrite H. Qed.

(** ** Outcome and drawing calls of a page *)

Section PageRun.

Variables (env : Collaborators) (st : Settings) (cv : Canvas) (vp : Viewport).

Lemma translatePage_outcome (its : list Item) (fs : Fonts) :
  outcome (translatePage env st (mkPage its (Some cv) vp) fs)
  = match survivors its with
    | [] => Return tt
    | _ :: _ =>
        match responseTo env st (requestOf env st its) with
        | Throw e => Throw e
        | Return response =>
            match pairFailure env cv vp (survivors its) (split sentinel response) with
            | Some e => Throw e
            | None => Return tt
            end
        end
    end.
Proof.
  destruct (translatePage_run env st cv vp its fs) as (_ & Hnil & Hrun).
  destruct (survivors its) as [|t runs].
  - now rewrite Hnil.
  - destruct Hrun as [_ Hresp]; [discriminate|].
    destruct (responseTo env st (requestOf env st its)); now destruct Hresp.
Qed.

Lemma translatePage_ops (its : list Item) (fs : Fonts) (response : string) :
  responseTo env st (requestOf env st its) = Return response ->
  drawOps (events (translatePage env st (mkPage its (Some cv) vp) fs))
  = pairedOps env cv vp (survivors its) (split sentinel response).
Proof.
  intros Hresp.
  destruct (translatePage_run env st cv vp its fs) as (_ & Hnil & Hrun).
  destruct (survivors its) as [|t runs] eqn:E.
  - now rewrite Hnil.
  - destruct Hrun as [_ Hops]; [discriminate|].
    rewrite Hresp in Hops. apply Hops.
Qed.

End PageRun.

(** ** The claims about a page

    The page is one that was rendered: its canvas context is present
    (otherwise the page loop skips the page before anything is read). *)

(** C1 (as the code has it).  The page body has no check of the number of
    segments, and the number plays no part in how a page ends: a page with no
    surviving run completes; otherwise the page fails with the error of the
    service when the service throws, and when the service returns it fails
    only with the error pdf-lib throws on the first paired text it cannot
    measure or draw, completing normally when there is none.  No run means
    no request; otherwise exactly one request is made. *)
Theorem page_outcome (env : Collaborators) (st : Settings) (cv : Canvas) (vp : Viewport)
    (its : list Item) (fs : Fonts) :
  let r := translatePage env st (mkPage its (Some cv) vp) fs in
  let request := requestOf env st its in
  outcome r = match survivors its with
              | [] => Return tt
              | _ :: _ =>
                  match responseTo env st request with
                  | Throw e => Throw e
                  | Return response =>
                      match pairFailure env cv vp (survivors its)
                                        (split sentinel response) with
                      | Some e => Throw e
                      | None => Return tt
                      end
                  end
              end
  /\ requests (events r) = match survivors its with
                           | [] => []
                           | _ :: _ => [request]
                           end
  /\ (forall response,
        responseTo env st request = Return response ->
        pairFailure env cv vp (survivors its) (split sentinel response) = None ->
        outcome r = Return tt).
Proof.
  intros r request.
  assert (Ho := translatePage_outcome env st cv vp its fs). fold r request in Ho.
  split; [exact Ho|]. split.
  - destruct (translatePage_run env st cv vp its fs) as (_ & Hnil & Hrun).
    fold r in Hnil, Hrun. destruct (survivors its) as [|t runs].
    + now rewrite Hnil.
    + now destruct Hrun.
  - intros response Hresp Hf. rewrite Ho, Hresp, Hf. now destruct (survivors its).
Qed.

(** C1 as stated fails: five runs are sent, the response splits into three
    segments, and the page completes without a failure. *)
Lemma batch_mismatch_not_signalled :
  let r := translatePage (Sample.answering "uno ||| dos ||| tres") Sample.settings
                         (Sample.page Sample.fiveRuns) [] in
  List.length (survivors Sample.fiveRuns) = 5%nat
  /\ requests (events r) = ["one ||| two ||| three ||| four ||| five"]
  /\ List.length (split sentinel "uno ||| dos ||| tres") = 3%nat
  /\ outcome r = Return tt
  /\ List.length (drawOps (events r)) = 8%nat.
Proof. repeat split; vm_compute; reflexivity. Qed.

(** C2 (as the code has it).  When the service returns, the drawing calls
    of a page follow the surviving runs in page order: a run paired with a
    translated text is erased and then, pdf-lib measuring and drawing the
    text, painted right after; a text pdf-lib throws on ends the page with
    that error after the rectangle of its run; a run left without a text is
    erased and not painted.  So, with no such throw, the calls are one erase
    immediately followed by its paint for each paired run, then the erase
    alone for each run left without a text. *)
Theorem page_draws_paired_runs (env : Collaborators) (st : Settings) (cv : Canvas)
    (vp : Viewport) (its : list Item) (fs : Fonts) (response : string) :
  responseTo env st (requestOf env st its) = Return response ->
  let r := translatePage env st (mkPage its (Some cv) vp) fs in
  let runs := survivors its in
  let texts := split sentinel response in
  drawOps (events r) = pairedOps env cv vp runs texts
  /\ (pairFailure env cv vp runs texts = None ->
      drawOps (events r)
      = (flat_map (erasePaint env cv vp) (combine runs texts)
         ++ map eraseOp (skipn (List.length texts) runs))%list
      /\ Forall (fun p => exists op,
                   paintOutcome env cv vp (fst p) (snd p) = Return op
                   /\ erasePaint env cv vp p = [eraseOp (fst p); op])
                (combine runs texts)
      /\ outcome r = Return tt)
  /\ (forall e, pairFailure env cv vp runs texts = Some e -> outcome r = Throw e).
Proof.
  intros Hresp r runs texts.
  assert (Hops := translatePage_ops env st cv vp its fs response Hresp).
  assert (Ho := translatePage_outcome env st cv vp its fs).
  fold r runs texts in Hops, Ho. rewrite Hresp in Ho. fold texts in Ho.
  split; [exact Hops|]. split.
  - intros Hf. split; [|split].
    + rewrite Hops. now apply pairedOps_closed_form.
    + now apply pairFailure_painted.
    + rewrite Ho, Hf. now destruct runs.
  - intros e Hf. rewrite Ho, Hf. destruct runs; [discriminate | reflexivity].
Qed.

Lemma page_draws_paired_runs_witness :
  let env := Sample.answering "uno" in
  let r := translatePage env Sample.settings
                         (mkPage Sample.twoRuns (Some Sample.canvas) Sample.viewport) [] in
  let runs := survivors Sample.twoRuns in
  let texts := split sentinel "uno" in
  drawOps (events r) = pairedOps env Sample.canvas Sample.viewport runs texts
  /\ (pairFailure env Sample.canvas Sample.viewport runs texts = None ->
      drawOps (events r)
      = (flat_map (erasePaint env Sample.canvas Sample.viewport) (combine runs texts)
         ++ map eraseOp (skipn (List.length texts) runs))%list
      /\ Forall (fun p => exists op,
                   paintOutcome env Sample.canvas Sample.viewport (fst p) (snd p) = Return op
                   /\ erasePaint env Sample.canvas Sample.viewport p = [eraseOp (fst p); op])
                (combine runs texts)
      /\ outcome r = Return tt)
  /\ (forall e, pairFailure env Sample.canvas Sample.viewport runs texts = Some e ->
                outcome r = Throw e).
Proof.
  intros env.
  apply (page_draws_paired_runs env Sample.settings Sample.canvas
           Sample.viewport Sample.twoRuns [] "uno").
  reflexivity.
Defined.

(** C2 as stated fails.  With two runs and one translated text, the second
    run, left unpaired, is still erased.  And with pdf-lib's fonts, a first
    text that has a line feed leaves its run erased and not painted: the
    page ends there with the error. *)
Lemma unpaired_run_is_erased :
  let env := Sample.answering "uno" in
  let r := translatePage env Sample.settings (Sample.page Sample.twoRuns) [] in
  let one := Sample.run "one" 11 700 "Arial" in
  let two := Sample.run "two" 11 680 "Arial" in
  let painted := DrawText "uno" 11 700 Helvetica 12
                          (sampledColor Sample.canvas Sample.viewport one) in
  let strict := Sample.answeringStrict ("uno" ++ Sample.lineFeed ++ "dos ||| tres") in
  let r' := translatePage strict Sample.settings (Sample.page Sample.twoRuns) [] in
  survivors Sample.twoRuns = [one; two]
  /\ split sentinel "uno" = ["uno"]
  /\ drawOps (events r) = [eraseOp one; painted; eraseOp two]
  /\ pairedOpsStopping env Sample.canvas Sample.viewport [one; two] ["uno"]
     = [eraseOp one; painted]
  /\ drawOps (events r)
     <> pairedOpsStopping env Sample.canvas Sample.viewport [one; two] ["uno"]
  /\ List.length (split sentinel ("uno" ++ Sample.lineFeed ++ "dos ||| tres")) = 2%nat
  /\ drawOps (events r') = [eraseOp one]
  /\ outcome r' = Throw "WinAnsi cannot encode".
Proof.
  intros env r one two painted strict r'.
  split; [reflexivity|]. split; [reflexivity|]. split; [vm_compute; reflexivity|].
  split; [vm_compute; reflexivity|]. split; [vm_compute; discriminate|].
  repeat split; vm_compute; reflexivity.
Qed.



(** C9.  The items whose trimmed text is empty (and those without text)
    take no part in a page: its run - pixels read, request sent, drawing
    calls, outcome - is the run of the page with those items removed, the
    remaining runs being the filtered items in page order.  When no run
    remains the page returns normally with no event at all: nothing is read,
    the service is not called, nothing is drawn. *)
Theorem empty_runs_excluded (env : Collaborators) (st : Settings) (page : Page) (fs : Fonts) :
  translatePage env st page fs = translatePage env st (withoutEmpty page) fs
  /\ map Text (survivors (items page)) = filter hasText (items page)
  /\ (forall t, In t (survivors (items page)) <->
                In (Text t) (items page) /\ String.length (trim (str t)) <> 0%nat)
  /\ (filter hasText (items page) = [] ->
      translatePage env st page fs = mkRun (Return tt) fs []).
Proof.
  split; [apply translatePage_withoutEmpty|].
  split; [apply survivors_spec|].
  split.
  { intros t. apply survivors_In. }
  intros Hnone. destruct page as [its [cv|] vp].
  - cbn [items] in Hnone.
    destruct (translatePage_run env st cv vp its fs) as (_ & Hnil & _).
    apply Hnil. rewrite <- survivors_spec in Hnone. now apply map_eq_nil in Hnone.
  - unfold translatePage. cbn [items canvasContext].
    now destruct (List.length its =? 0)%nat.
Qed.

(** C10 (as the code has it).  When the response splits into more
    segments than there are surviving runs, the segments beyond the last run
    have no effect: what is drawn and how the page ends are those of the
    first segments alone, one per run.  When pdf-lib throws on none of these,
    the page completes normally and every surviving run, in page order, is
    erased and painted with the segment of its own rank. *)
Theorem surplus_segments_discarded (env : Collaborators) (st : Settings) (cv : Canvas)
    (vp : Viewport) (its : list Item) (fs : Fonts) (response : string) :
  responseTo env st (requestOf env st its) = Return response ->
  (List.length (survivors its) < List.length (split sentinel response))%nat ->
  let r := translatePage env st (mkPage its (Some cv) vp) fs in
  let runs := survivors its in
  let used := firstn (List.length runs) (split sentinel response) in
  List.length used = List.length runs
  /\ drawOps (events r) = pairedOps env cv vp runs used
  /\ outcome r = match pairFailure env cv vp runs used with
                 | Some e => Throw e
                 | None => Return tt
                 end
  /\ (pairFailure env cv vp runs used = None ->
      outcome r = Return tt
      /\ drawOps (events r) = flat_map (erasePaint env cv vp) (combine runs used)
      /\ List.length (drawOps (events r)) = (2 * List.length runs)%nat).
Proof.
  intros Hresp Hlen r runs used.
  assert (Hused : List.length used = List.length runs).
  { subst used. rewrite length_firstn. fold runs in Hlen. lia. }
  destruct (pairedOps_used env cv vp runs (split sentinel response)) as [Hp Hf].
  fold used in Hp, Hf.
  assert (Hops : drawOps (events r) = pairedOps env cv vp runs used).
  { subst r. rewrite (translatePage_ops env st cv vp its fs response Hresp).
    fold runs. exact Hp. }
  assert (Ho : outcome r = match pairFailure env cv vp runs used with
                           | Some e => Throw e
                           | None => Return tt
                           end).
  { subst r. rewrite translatePage_outcome, Hresp. fold runs. rewrite <- Hf.
    destruct runs; reflexivity. }
  split; [exact Hused|]. split; [exact Hops|]. split; [exact Ho|].
  intros Hnone. rewrite <- Hf in Hnone.
  assert (Hflat : drawOps (events r) = flat_map (erasePaint env cv vp) (combine runs used)).
  { rewrite Hops, <- Hp. apply pairedOps_surplus; [fold runs in Hlen; lia | exact Hnone]. }
  split; [now rewrite Ho, <- Hf, Hnone|].
  split; [exact Hflat|].
  rewrite Hflat, length_erasePaint, length_combine, Hused; [lia|].
  apply pairFailure_painted. now rewrite <- Hf.
Qed.

Lemma surplus_segments_discarded_witness :
  let env := Sample.answering "uno ||| dos ||| tres" in
  let r := translatePage env Sample.settings
                         (mkPage Sample.twoRuns (Some Sample.canvas) Sample.viewport) [] in
  let runs := survivors Sample.twoRuns in
  let used := firstn (List.length runs) (split sentinel "uno ||| dos ||| tres") in
  List.length used = List.length runs
  /\ drawOps (events r) = pairedOps env Sample.canvas Sample.viewport runs used
  /\ outcome r = match pairFailure env Sample.canvas Sample.viewport runs used with
                 | Some e => Throw e
                 | None => Return tt
                 end
  /\ (pairFailure env Sample.canvas Sample.viewport runs used = None ->
      outcome r = Return tt
      /\ drawOps (events r)
         = flat_map (erasePaint env Sample.canvas Sample.viewport) (combine runs used)
      /\ List.length (drawOps (events r)) = (2 * List.length runs)%nat).
Proof.
  intros env.
  apply (surplus_segments_discarded env Sample.settings Sample.canvas Sample.viewport
           Sample.twoRuns [] "uno ||| dos ||| tres"); [reflexivity | vm_compute; lia].
Defined.

(** C10 as stated fails: three segments come back for two runs, the first
    has a line feed, which pdf-lib's fonts cannot encode; an error is
    signalled and the first run is erased and not painted, the second not
    reached. *)
Lemma surplus_with_unencodable_segment :
  let response := "uno" ++ Sample.lineFeed ++ "dos ||| tres ||| cuatro" in
  let r := translatePage (Sample.answeringStrict response) Sample.settings
                         (Sample.page Sample.twoRuns) [] in
  List.length (survivors Sample.twoRuns) = 2%nat
  /\ List.length (split sentinel response) = 3%nat
  /\ outcome r = Throw "WinAnsi cannot encode"
  /\ drawOps (events r) = [eraseOp (Sample.run "one" 11 700 "Arial")].
Proof. repeat split; vm_compute; reflexivity. Qed.

(** * Further properties of the code *)

(** ** Split and join *)

Section SplitFacts.

Variable sep : string.
Hypothesis sep_not_empty : (0 < String.length sep)%nat.

Lemma length_append (a b : string) :
  String.length (a ++ b) = (String.length a + String.length b)%nat.
Proof. induction a as [|c a IH]; simpl; [reflexivity | now rewrite IH]. Qed.

Lemma splitFrom_cons (s : string) (skip : nat) (piece : string) :
  exists first more, splitFrom sep s skip piece = first :: more.
Proof.
  revert skip piece. induction s as [|c s IH]; intros skip piece.
  - now exists piece, [].
  - cbn [splitFrom]. destruct skip as [|k]; [|apply IH].
    destruct (String.prefix sep (String c s)); [|apply IH].
    now eexists; eexists.
Qed.

Lemma join_cons (x : string) (l : list string) :
  l <> [] -> join sep (x :: l) = x ++ sep ++ join sep l.
Proof. destruct l; [intros H; now elim H | reflexivity]. Qed.

(** After a match the characters skipped are the rest of the separator. *)
Lemma splitFrom_match (c : ascii) (s piece : string) :
  String.prefix sep (String c s) = true ->
  exists rest,
    String c s = sep ++ rest
    /\ splitFrom sep (String c s) 0 piece = piece :: splitFrom sep rest 0 "".
Proof.
  intros Hp. destruct (prefix_split _ _ Hp) as [rest E]. exists rest.
  split; [exact E|]. cbn [splitFrom]. rewrite Hp. f_equal.
  destruct sep as [|c0 sep']; [inversion sep_not_empty|].
  cbn [append] in E. injection E as _ ->.
  cbn [String.length]. rewrite Nat.sub_1_r. cbn [Nat.pred].
  apply splitFrom_skip.
Qed.

Lemma join_splitFrom (n : nat) (s piece : string) :
  (String.length s <= n)%nat ->
  join sep (splitFrom sep s 0 piece) = piece ++ s.
Proof.
  revert s piece. induction n as [|n IH]; intros s piece Hlen.
  - destruct s; [|inversion Hlen]. cbn. now rewrite append_empty_r.
  - destruct s as [|c s]; [cbn; now rewrite append_empty_r|].
    destruct (String.prefix sep (String c s)) eqn:Hp.
    + destruct (splitFrom_match c s piece Hp) as (rest & E & ->).
      destruct (splitFrom_cons rest 0 "") as (first & more & Hs).
      rewrite join_cons by (rewrite Hs; discriminate).
      rewrite IH, E; [reflexivity|].
      assert (L : String.length (String c s) = String.length (sep ++ rest)) by now rewrite E.
      rewrite length_append in L. cbn [String.length] in L, Hlen. lia.
    + cbn [splitFrom]. rewrite Hp, IH by (cbn [String.length] in Hlen; lia).
      now rewrite append_assoc.
Qed.

Lemma append_last_split (piece pre suf : string) (c : ascii) :
  piece ++ String c "" = pre ++ suf -> suf <> "" ->
  exists suf0, suf = suf0 ++ String c "" /\ piece = pre ++ suf0.
Proof.
  revert pre. induction piece as [|a piece IH]; intros pre E Hne.
  - destruct pre as [|d pre].
    + exists "". now split.
    + cbn in E. injection E as _ E. destruct pre, suf; try discriminate. now elim Hne.
  - destruct pre as [|d pre].
    + exists (String a piece). now split.
    + cbn in E. injection E as -> E. destruct (IH _ E Hne) as (suf0 & -> & ->).
      now exists suf0.
Qed.

Lemma NoEarlyMatch_piece (piece s : string) :
  NoEarlyMatch sep piece s -> includes piece sep = false.
Proof.
  intros Hinv. apply not_includes_Contains. intros (pre & post & E).
  specialize (Hinv pre (sep ++ post) E).
  rewrite append_assoc, prefix_append in Hinv.
  assert (sep ++ post <> "") by (destruct sep; [inversion sep_not_empty | discriminate]).
  specialize (Hinv H). discriminate.
Qed.

Lemma NoEarlyMatch_empty (s : string) : NoEarlyMatch sep "" s.
Proof. intros pre suf E Hne. destruct pre, suf; try discriminate. now elim Hne. Qed.

Lemma splitFrom_pieces (n : nat) (s piece : string) :
  (String.length s <= n)%nat ->
  NoEarlyMatch sep piece s ->
  Forall (fun p => includes p sep = false) (splitFrom sep s 0 piece).
Proof.
  revert s piece. induction n as [|n IH]; intros s piece Hlen Hinv.
  - destruct s; [|inversion Hlen]. repeat constructor. now apply (NoEarlyMatch_piece _ "").
  - destruct s as [|c s]; [repeat constructor; now apply (NoEarlyMatch_piece _ "")|].
    destruct (String.prefix sep (String c s)) eqn:Hp.
    + destruct (splitFrom_match c s piece Hp) as (rest & E & ->).
      constructor; [now apply (NoEarlyMatch_piece _ (String c s))|].
      apply IH; [|apply NoEarlyMatch_empty].
      assert (L : String.length (String c s) = String.length (sep ++ rest)) by now rewrite E.
      rewrite length_append in L. cbn [String.length] in L, Hlen. lia.
    + cbn [splitFrom]. rewrite Hp. apply IH; [cbn [String.length] in Hlen; lia|].
      intros pre suf E Hne.
      destruct (append_last_split _ _ _ _ E Hne) as (suf0 & -> & E0).
      rewrite append_assoc. cbn [append].
      destruct suf0 as [|d suf0]; [exact Hp|].
      apply (Hinv pre (String d suf0) E0). discriminate.
Qed.

Lemma split_without_separator (s piece : string) :
  includes s sep = false -> splitFrom sep s 0 piece = [piece ++ s].
Proof.
  revert piece. induction s as [|c s IH]; intros piece Hi.
  - now rewrite append_empty_r.
  - rewrite includes_unfold in Hi. apply orb_false_iff in Hi. destruct Hi as [Hp Hi].
    cbn [splitFrom]. rewrite Hp, IH by assumption.
    now rewrite append_assoc.
Qed.

End SplitFacts.

(** X1.  Joining the pieces of a split with the same non-empty separator
    gives the string back: the split of the service's response loses no
    character. *)
Theorem join_split_identity (sep s : string) :
  (0 < String.length sep)%nat -> join sep (split sep s) = s.
Proof. intros H. unfold split. now rewrite (join_splitFrom sep H (String.length s)). Qed.

Lemma join_split_identity_witness :
  join sentinel (split sentinel "uno ||| dos |||  ||| ") = "uno ||| dos |||  ||| ".
Proof. apply (join_split_identity sentinel "uno ||| dos |||  ||| "). vm_compute. lia. Defined.

(** X2.  A split always returns at least one piece, no piece contains the
    separator, and a string without the separator comes back as its only
    piece. *)
Theorem split_pieces (sep s : string) :
  (0 < String.length sep)%nat ->
  split sep s <> []
  /\ Forall (fun p => includes p sep = false) (split sep s)
  /\ (includes s sep = false -> split sep s = [s]).
Proof.
  intros H. unfold split. split; [|split].
  - destruct (splitFrom_cons sep s 0 "") as (first & more & ->). discriminate.
  - apply (splitFrom_pieces sep H (String.length s)); [lia|]. apply NoEarlyMatch_empty.
  - intros Hi. now rewrite split_without_separator.
Qed.

Lemma split_pieces_witness :
  split sentinel "uno ||| ||| dos" <> []
  /\ Forall (fun p => includes p sentinel = false) (split sentinel "uno ||| ||| dos")
  /\ (includes "uno ||| ||| dos" sentinel = false ->
      split sentinel "uno ||| ||| dos" = ["uno ||| ||| dos"]).
Proof. apply (split_pieces sentinel "uno ||| ||| dos"). vm_compute. lia. Defined.

(** ** The empty-text filter *)

Section TrimFacts.

Lemma trimEnd_empty (s : string) :
  trimEnd s = "" <-> forallb isWhiteSpace (chars s) = true.
Proof.
  induction s as [|c s IH]; [now split|].
  cbn [trimEnd chars forallb]. rewrite andb_true_iff, <- IH.
  destruct (trimEnd s) as [|d r]; destruct (isWhiteSpace c); split;
    try discriminate; try tauto; intros [H1 H2]; discriminate.
Qed.

Lemma trimStart_white (s : string) :
  forallb isWhiteSpace (chars (trimStart s)) = forallb isWhiteSpace (chars s).
Proof.
  induction s as [|c s IH]; [reflexivity|].
  cbn [trimStart]. destruct (isWhiteSpace c) eqn:E.
  - cbn [chars forallb]. now rewrite E, IH.
  - reflexivity.
Qed.

Lemma trim_empty (s : string) :
  (String.length (trim s) =? 0)%nat = forallb isWhiteSpace (chars s).
Proof.
  unfold trim. rewrite <- trimStart_white.
  destruct (forallb isWhiteSpace (chars (trimStart s))) eqn:E.
  - apply trimEnd_empty in E. now rewrite E.
  - destruct (trimEnd (trimStart s)) eqn:T; [|reflexivity].
    apply trimEnd_empty in T. congruence.
Qed.

Lemma negb_forallb {A : Type} (f : A -> bool) (l : list A) :
  negb (forallb f l) = existsb (fun a => negb (f a)) l.
Proof.
  induction l as [|a l IH]; [reflexivity|].
  cbn [forallb existsb]. now rewrite negb_andb, IH.
Qed.

Lemma existsb_ext_all {A : Type} (f g : A -> bool) (l : list A) :
  (forall a, f a = g a) -> existsb f l = existsb g l.
Proof.
  intros H. induction l as [|a l IH]; [reflexivity|].
  cbn [existsb]. now rewrite H, IH.
Qed.

End TrimFacts.

Lemma isWhiteSpace_codes (c : ascii) :
  isWhiteSpace c = existsb (Nat.eqb (nat_of_ascii c)) [9; 10; 11; 12; 13; 32]%nat.
Proof. destruct c as [[] [] [] [] [] [] [] []]; reflexivity. Qed.

(** X3.  On a page whose texts are ASCII, an item takes part exactly when it
    is a text item whose text has a character other than TAB, LF, VT, FF, CR
    and SP (the white space [trim] removes within ASCII); the surviving runs
    are those items, in page order. *)
Theorem hasText_nonblank (its : list Item) :
  forallb isAsciiItem its = true ->
  let blank := fun c => existsb (Nat.eqb (nat_of_ascii c)) [9; 10; 11; 12; 13; 32]%nat in
  let nonblank := fun it => match it with
                            | Text t => existsb (fun c => negb (blank c)) (chars (str t))
                            | MarkedContent => false
                            end in
  (forall it, In it its -> hasText it = nonblank it)
  /\ map Text (survivors its) = filter nonblank its.
Proof.
  intros _ blank nonblank.
  assert (H : forall it, hasText it = nonblank it).
  { intros [t|]; [|reflexivity]. cbn [hasText nonblank].
    rewrite trim_empty, negb_forallb. apply existsb_ext_all. intros c.
    subst blank. cbv beta. now rewrite isWhiteSpace_codes. }
  split; [intros it _; apply H|].
  rewrite survivors_spec. apply filter_ext. exact H.
Qed.

Lemma hasText_nonblank_witness :
  let blank := fun c => existsb (Nat.eqb (nat_of_ascii c)) [9; 10; 11; 12; 13; 32]%nat in
  let nonblank := fun it => match it with
                            | Text t => existsb (fun c => negb (blank c)) (chars (str t))
                            | MarkedContent => false
                            end in
  (forall it, In it Sample.fiveRuns -> hasText it = nonblank it)
  /\ map Text (survivors Sample.fiveRuns) = filter nonblank Sample.fiveRuns.
Proof. apply (hasText_nonblank Sample.fiveRuns). reflexivity. Defined.

(** ** More on colour sampling *)

Section SamplingRange.

Local Open Scope Q_scope.

Lemma byte_ratio (z : Z) : (0 <= z <= 255)%Z -> 0 <= inject_Z z / 255 <= 1.
Proof.
  intros [H0 H1]. split.
  - apply Qle_shift_div_l; [reflexivity|]. rewrite Qmult_0_l.
    change 0 with (inject_Z 0). now rewrite <- Zle_Qle.
  - apply Qle_shift_div_r; [reflexivity|]. rewrite Qmult_1_l.
    change 255 with (inject_Z 255). now rewrite <- Zle_Qle.
Qed.

Lemma colorOfPixel_inUnit (p : Pixel) : isBytePixel p -> inUnit (colorOfPixel p).
Proof. intros (Hr & Hg & Hb). repeat split; now apply byte_ratio. Qed.

Lemma chosenColor_inUnit (bg : Pixel) (candidates : list Pixel) :
  Forall isBytePixel candidates -> inUnit (chosenColor bg candidates).
Proof.
  intros Hc. unfold chosenColor.
  destruct (find (distinctFrom bg) candidates) as [p|] eqn:E.
  - apply colorOfPixel_inUnit. apply find_some in E.
    rewrite Forall_forall in Hc. now apply Hc.
  - destruct (Qltb (meanOf bg) 128); repeat split; discriminate.
Qed.

Lemma imageData_byte (cv : Canvas) (x y : Z) :
  (forall a b, isBytePixel (pixelAt cv a b)) -> isBytePixel (imageData cv x y).
Proof.
  intros H. unfold imageData. destruct (inCanvas cv x y); [apply H|].
  repeat split; discriminate.
Qed.

Lemma length_readsUntilDistinct (cv : Canvas) (bg : Pixel) (points : list (Q * Q)) :
  (List.length (pixelReads (readsUntilDistinct cv bg points)) <= List.length points)%nat
  /\ (points <> [] -> (1 <= List.length (pixelReads (readsUntilDistinct cv bg points)))%nat).
Proof.
  induction points as [|point rest [IH _]]; [split; [apply Nat.le_refl | intros H; now elim H]|].
  cbn [readsUntilDistinct pixelReads List.length].
  destruct (distinctFrom bg (pixelUnder cv point)); cbn [pixelReads List.length]; split; intros; lia.
Qed.

End SamplingRange.

(** X4.  On a canvas whose pixels are bytes, the colour the sampler returns
    for a run has its three components between 0 and 1, whatever the
    geometry of the run (also when a point is read outside the canvas). *)
Theorem sampled_color_in_unit (cv : Canvas) (vp : Viewport) (t : TextItem) (fs : Fonts) :
  (forall x y, isBytePixel (pixelAt cv x y)) ->
  exists c, outcome (sampleColor cv vp t fs) = Return c /\ inUnit c.
Proof.
  intros Hb. exists (sampledColor cv vp t). split; [now rewrite sampleColor_run|].
  apply chosenColor_inUnit. unfold candidatePixels. apply Forall_forall.
  intros p Hp. apply in_map_iff in Hp. destruct Hp as (point & <- & _).
  now apply imageData_byte.
Qed.

Lemma sampled_color_in_unit_witness :
  exists c, outcome (sampleColor Sample.canvas Sample.viewport Sample.farRun []) = Return c
            /\ inUnit c.
Proof.
  apply (sampled_color_in_unit Sample.canvas Sample.viewport Sample.farRun []).
  intros x y. simpl. destruct (30 <=? x)%Z; vm_compute; intuition discriminate.
Defined.

(** X5.  On a canvas of positive size the sampler reads the background
    point first and then one to three candidate points; every candidate is
    read inside the canvas, and the background point is read on a row of the
    canvas at a column that is not negative. *)
Theorem sampler_reads (cv : Canvas) (vp : Viewport) (t : TextItem) (fs : Fonts) :
  (0 < cwidth cv)%Z -> (0 < cheight cv)%Z ->
  exists candidates,
    pixelReads (events (sampleColor cv vp t fs))
    = (bgSampleX vp t, bgSampleY cv vp t) :: candidates
    /\ (1 <= List.length candidates <= 3)%nat
    /\ forallb (fun xy => inCanvas cv (fst xy) (snd xy)) candidates = true
    /\ (0 <= bgSampleX vp t)%Z
    /\ (0 <= bgSampleY cv vp t < cheight cv)%Z.
Proof.
  intros Hw Hh. rewrite sampleColor_run. unfold sampleEvents. cbn [events pixelReads].
  eexists. split; [reflexivity|].
  destruct (length_readsUntilDistinct cv (bgPixel cv vp t) (samplePoints vp t)) as [Hle Hge].
  split; [split; [apply Hge; discriminate | exact Hle]|].
  split; [now apply candidate_reads_inCanvas|].
  now apply background_read_bounds.
Qed.

Lemma sampler_reads_witness :
  exists candidates,
    pixelReads (events (sampleColor Sample.canvas Sample.viewport Sample.farRun []))
    = (bgSampleX Sample.viewport Sample.farRun,
       bgSampleY Sample.canvas Sample.viewport Sample.farRun) :: candidates
    /\ (1 <= List.length candidates <= 3)%nat
    /\ forallb (fun xy => inCanvas Sample.canvas (fst xy) (snd xy)) candidates = true
    /\ (0 <= bgSampleX Sample.viewport Sample.farRun)%Z
    /\ (0 <= bgSampleY Sample.canvas Sample.viewport Sample.farRun < cheight Sample.canvas)%Z.
Proof.
  apply (sampler_reads Sample.canvas Sample.viewport Sample.farRun []); reflexivity.
Defined.

(** ** More on fitting *)

(** X6.  When the width of a text is proportional to its size (width
    [k * size], as pdf-lib measures it) and the original box has a positive
    width [W], the text drawn at the fitted size fits in [W] exactly when it
    fits at size 4: the floor of 4 is the only way the translated text can
    overflow the original box. *)
Theorem fitted_text_fits (W H k : Q) :
  (0 < W)%Q -> (0 <= k)%Q ->
  (k * fitSize W H (k * H) <= W <-> k * 4 <= W)%Q.
Proof.
  intros HW Hk. unfold fitSize.
  assert (Hmax : forall x, (k * Qmax x 4 <= W <-> k * x <= W /\ k * 4 <= W)%Q).
  { intros x. destruct (Q.max_spec x 4) as [[Hlt ->]|[Hle ->]].
    - split; [|tauto]. intros H4. split; [|exact H4].
      apply Qle_trans with (k * 4)%Q; [|exact H4].
      rewrite !(Qmult_comm k). apply Qmult_le_compat_r; [now apply Qlt_le_weak | exact Hk].
    - split; [|tauto]. intros Hx. split; [exact Hx|].
      apply Qle_trans with (k * x)%Q; [|exact Hx].
      rewrite !(Qmult_comm k). now apply Qmult_le_compat_r. }
  rewrite Hmax.
  destruct (Qltb W (k * H)) eqn:E1, (Qltb 0 W) eqn:E2; cbn [andb].
  - apply Qltb_lt in E1.
    assert (HkH : ~ (k * H == 0)%Q).
    { intros E0. rewrite E0 in E1. apply (Qlt_irrefl 0). now apply Qlt_trans with W. }
    assert (Hfit : (k * (H * (W / (k * H)) * 0.95) == 0.95 * W)%Q)
      by (field; split; intros E0; apply HkH; rewrite E0; ring).
    rewrite Hfit. split; [tauto|]. intros H4. split; [|exact H4]. lra.
  - apply Qltb_ge in E2. exfalso. apply (Qlt_irrefl W). now apply Qle_lt_trans with 0%Q.
  - apply Qltb_ge in E1. tauto.
  - apply Qltb_ge in E1. tauto.
Qed.

Lemma fitted_text_fits_witness :
  ((1 # 2) * fitSize 100 12 ((1 # 2) * 12) <= 100 <-> (1 # 2) * 4 <= 100)%Q.
Proof. apply (fitted_text_fits 100 12 (1 # 2)); vm_compute; reflexivity || discriminate. Defined.

(** ** The font cache *)

Section FontCache.

Lemma StandardFonts_eqb_eq (a b : StandardFonts) : StandardFonts_eqb a b = true <-> a = b.
Proof. destruct a, b; split; intros H; try reflexivity; discriminate. Qed.

Lemma existsb_font (f : StandardFonts) (fs : Fonts) :
  existsb (StandardFonts_eqb f) fs = true <-> In f fs.
Proof.
  rewrite existsb_exists. split.
  - intros (g & Hg & E). apply StandardFonts_eqb_eq in E. now subst.
  - intros H. exists f. split; [exact H | now apply StandardFonts_eqb_eq].
Qed.

Lemma getFont_textFont (name : string) : In (getFont name) textFonts.
Proof.
  unfold getFont, textFonts.
  destruct (includes (toLowerCase name) "times"), (includes (toLowerCase name) "courier"),
    (includes (toLowerCase name) "bold"), (includes (toLowerCase name) "italic"),
    (includes (toLowerCase name) "oblique"); cbn; tauto.
Qed.

Lemma embedded_app (a b : list Event) : embedded (a ++ b) = (embedded a ++ embedded b)%list.
Proof.
  induction a as [|e a IH]; [reflexivity|].
  destruct e; simpl; now rewrite IH.
Qed.

Lemma fontsReady_app (fs : Fonts) (a b : list Event) :
  fontsReady fs (a ++ b) = fontsReady fs a && fontsReady (rev (embedded a) ++ fs)%list b.
Proof.
  revert fs. induction a as [|e a IH]; intros fs; [reflexivity|].
  destruct e as [| | |f|op]; cbn [app fontsReady embedded rev]; try apply IH.
  - rewrite IH, <- app_assoc. reflexivity.
  - destruct op; [apply IH|]. rewrite IH. now rewrite andb_assoc.
Qed.

Lemma KeepsCache_ret {A : Type} (a : A) : KeepsCache (ret a).
Proof. intros fs Hfs. cbn. repeat split; [assumption | intros x []]. Qed.

Lemma KeepsCache_bind {A B : Type} (m : M A) (k : A -> M B) :
  KeepsCache m -> (forall a, KeepsCache (k a)) -> KeepsCache (bind m k).
Proof.
  intros Hm Hk fs Hfs. destruct (Hm fs Hfs) as (F1 & N1 & R1 & T1).
  unfold bind. destruct (outcome (m fs)) as [a|e]; cbn [fonts events].
  - destruct (Hk a _ N1) as (F2 & N2 & R2 & T2).
    rewrite embedded_app, fontsReady_app, rev_app_distr, <- app_assoc, <- F1, <- F2.
    repeat split; try assumption.
    + rewrite R1. rewrite F1 in R2. rewrite <- F1 in R2. exact R2.
    + now apply incl_app.
  - repeat split; assumption.
Qed.

(** A computation that embeds nothing and draws no text. *)
Lemma KeepsCache_quiet {A : Type} (m : M A) :
  (forall fs, fonts (m fs) = fs
              /\ embedded (events (m fs)) = []
              /\ forall gs, fontsReady gs (events (m fs)) = true) ->
  KeepsCache m.
Proof.
  intros H fs Hfs. destruct (H fs) as (F & E & R).
  rewrite F, E. repeat split; try assumption; [apply R | intros x []].
Qed.

Lemma KeepsCache_getImageData (cv : Canvas) (x y : Z) : KeepsCache (getImageData cv x y).
Proof. apply KeepsCache_quiet. intros fs. repeat split. Qed.

Lemma KeepsCache_samplePointsLoop (cv : Canvas) (bg : Pixel) (points : list (Q * Q))
    (fc : Color) (found : bool) :
  KeepsCache (samplePointsLoop cv bg points fc found).
Proof.
  induction points as [|point rest IH]; [apply KeepsCache_ret|].
  cbn [samplePointsLoop]. destruct (clampPoint cv point) as [sx sy].
  apply KeepsCache_bind; [apply KeepsCache_getImageData|].
  intros p. destruct (sqrtExceeds (sumOfSquares p bg) 50); [apply KeepsCache_ret | exact IH].
Qed.

Lemma KeepsCache_sampleColor (cv : Canvas) (vp : Viewport) (t : TextItem) :
  KeepsCache (sampleColor cv vp t).
Proof.
  unfold sampleColor. apply KeepsCache_bind; [apply KeepsCache_getImageData|].
  intros bg. apply KeepsCache_bind; [apply KeepsCache_samplePointsLoop|].
  intros [finalColor colorFound].
  destruct (negb colorFound && Qltb (meanOf bg) 128); apply KeepsCache_ret.
Qed.

Lemma KeepsCache_mapM {A B : Type} (f : A -> M B) (l : list A) :
  (forall a, KeepsCache (f a)) -> KeepsCache (mapM f l).
Proof.
  intros Hf. induction l as [|a l IH]; [apply KeepsCache_ret|].
  cbn [mapM]. apply KeepsCache_bind; [apply Hf|].
  intros b. apply KeepsCache_bind; [exact IH|]. intros bs. apply KeepsCache_ret.
Qed.

Lemma KeepsCache_styleItem (cv : Canvas) (vp : Viewport) (it : Item) :
  KeepsCache (styleItem cv vp it).
Proof.
  destruct it as [t|]; [|apply KeepsCache_ret]. cbn [styleItem].
  destruct (String.length (trim (str t)) =? 0)%nat; [apply KeepsCache_ret|].
  apply KeepsCache_bind; [apply KeepsCache_sampleColor|]. intros c. apply KeepsCache_ret.
Qed.

Variables (env : Collaborators) (st : Settings).

Lemma KeepsCache_translate (request : string) : KeepsCache (translate env st request).
Proof.
  apply KeepsCache_quiet. intros fs. unfold translate.
  destruct (translationService st); repeat split.
Qed.

(** Embedding is guarded by the cache: a font is embedded when it is new,
    and then the text is drawn with it. *)
Lemma KeepsCache_drawTranslated (t : TextItem) (c : Color) (text : string) :
  KeepsCache (drawTranslated env t c text).
Proof.
  intros fs Hfs.
  assert (Hnew : existsb (StandardFonts_eqb (getFont (fontName t))) fs = false ->
                 NoDup (getFont (fontName t) :: fs)).
  { intros E. constructor; [|assumption]. intros Hin. apply existsb_font in Hin. congruence. }
  assert (Hself : StandardFonts_eqb (getFont (fontName t)) (getFont (fontName t)) = true)
    by now apply StandardFonts_eqb_eq.
  assert (Htext : incl [getFont (fontName t)] textFonts).
  { intros x [<-|[]]. apply getFont_textFont. }
  unfold drawTranslated, bind, hasFont, call. cbn [outcome fonts events].
  destruct (existsb (StandardFonts_eqb (getFont (fontName t))) fs) eqn:E;
    cbn [ret embedFont emit outcome fonts events app];
    (destruct (widthOfTextAtSize env (getFont (fontName t)) text (height t)) as [w|e];
     cbn [outcome fonts events app];
     [destruct (drawText env text (t4 (transform t)) (t5 (transform t))
                         (getFont (fontName t)) (fitSize (width t) (height t) w) c) as [u|e];
      cbn [outcome fonts events app]|]);
    cbn [embedded fontsReady rev existsb app];
    rewrite ?E, ?Hself; cbn [orb andb];
    (split; [reflexivity|]); (split; [auto|]); (split; [reflexivity|]);
    try assumption; intros x [].
Qed.

Lemma KeepsCache_drawItems (l : list StyledItem) (texts : list string) (idx : nat) :
  KeepsCache (drawItems env l texts idx).
Proof.
  revert idx. induction l as [|si l IH]; intros idx; [apply KeepsCache_ret|].
  cbn [drawItems]. destruct (item si) as [t|]; [|apply IH].
  destruct (color si) as [c|]; [|apply IH].
  destruct (0 <? String.length (trim (str t)))%nat; [|apply IH].
  apply KeepsCache_bind.
  { apply KeepsCache_quiet. intros fs. repeat split. }
  intros _. apply KeepsCache_bind; [|intros next; apply IH].
  destruct (idx <? List.length texts)%nat; [|apply KeepsCache_ret].
  apply KeepsCache_bind; [apply KeepsCache_drawTranslated|].
  intros _. apply KeepsCache_ret.
Qed.

Lemma KeepsCache_translatePage (page : Page) : KeepsCache (translatePage env st page).
Proof.
  unfold translatePage.
  destruct (List.length (items page) =? 0)%nat; [apply KeepsCache_ret|].
  destruct (canvasContext page) as [cv|]; [|apply KeepsCache_ret].
  apply KeepsCache_bind; [apply KeepsCache_mapM; intros it; apply KeepsCache_styleItem|].
  intros itemsWithStyle.
  destruct (List.length _ =? 0)%nat; [apply KeepsCache_ret|].
  apply KeepsCache_bind; [apply KeepsCache_translate|].
  intros response. apply KeepsCache_bind; [apply KeepsCache_drawItems|].
  intros _. apply KeepsCache_ret.
Qed.

Lemma KeepsCache_pageLoop (pages : list Page) : KeepsCache (pageLoop env st pages).
Proof.
  induction pages as [|page rest IH]; [apply KeepsCache_ret|].
  cbn [pageLoop]. apply KeepsCache_bind; [apply KeepsCache_translatePage | intros _; exact IH].
Qed.

End FontCache.

(** X7.  Over a whole document, however many pages and runs it has and
    whether or not it ends with an error: no font is embedded twice, at most
    twelve fonts are embedded, and every text is drawn with a font embedded
    earlier in the document. *)
Theorem fonts_embedded_once (env : Collaborators) (st : Settings) (pages : list Page) :
  let evs := snd (handleTranslate env st pages) in
  NoDup (embedded evs)
  /\ (List.length (embedded evs) <= 12)%nat
  /\ fontsReady [] evs = true.
Proof.
  intros evs.
  assert (E : evs = events (pageLoop env st pages [])).
  { subst evs. unfold handleTranslate. now destruct (outcome (pageLoop env st pages [])). }
  destruct (KeepsCache_pageLoop env st pages [] (NoDup_nil _)) as (F & N & R & T).
  rewrite <- E in *. rewrite F, app_nil_r in N. apply NoDup_rev in N.
  rewrite rev_involutive in N.
  split; [exact N|]. split; [|exact R].
  change 12%nat with (List.length textFonts). now apply NoDup_incl_length.
Qed.

(** ** The order of the events of a page *)

Section PagePhases.

Variables (env : Collaborators) (st : Settings) (cv : Canvas) (vp : Viewport).

Lemma readsUntilDistinct_embedded (bg : Pixel) (points : list (Q * Q)) :
  embedded (readsUntilDistinct cv bg points) = [].
Proof.
  induction points as [|point rest IH]; [reflexivity|].
  cbn [readsUntilDistinct embedded].
  now destruct (distinctFrom bg (pixelUnder cv point)).
Qed.

Lemma itemEvents_embedded (its : list Item) :
  embedded (flat_map (itemEvents cv vp) its) = [].
Proof.
  induction its as [|it its IH]; [reflexivity|].
  cbn [flat_map]. rewrite embedded_app, IH, app_nil_r.
  destruct it as [t|]; cbn [itemEvents]; [|reflexivity].
  destruct (hasText (Text t)); [|reflexivity].
  unfold sampleEvents. cbn [embedded]. apply readsUntilDistinct_embedded.
Qed.

Lemma translate_event (request : string) (fs : Fonts) :
  exists ev,
    translate env st request fs = mkRun (responseTo env st request) fs [ev]
    /\ requests [ev] = [request] /\ drawOps [ev] = [] /\ pixelReads [ev] = []
    /\ embedded [ev] = [].
Proof.
  unfold translate, responseTo. destruct (translationService st);
    eexists; split; try reflexivity; repeat split.
Qed.

(** The events of a page with a surviving run: the pixel reads, the
    request, then what the drawing loop does. *)
Lemma translatePage_phases (its : list Item) (fs : Fonts) :
  survivors its <> [] ->
  exists ev rest,
    events (translatePage env st (mkPage its (Some cv) vp) fs)
    = (flat_map (itemEvents cv vp) its ++ ev :: rest)%list
    /\ requests [ev] = [requestOf env st its]
    /\ drawOps [ev] = [] /\ embedded [ev] = []
    /\ pixelReads rest = [] /\ requests rest = []
    /\ (forall e, responseTo env st (requestOf env st its) = Throw e ->
                  rest = []
                  /\ fonts (translatePage env st (mkPage its (Some cv) vp) fs) = fs
                  /\ outcome (translatePage env st (mkPage its (Some cv) vp) fs) = Throw e).
Proof.
  intros Hne. unfold translatePage. cbn [items canvasContext viewport].
  destruct (List.length its =? 0)%nat eqn:E0.
  { apply length_0_nil in E0. subst its. now elim Hne. }
  rewrite (bind_return _ _ _ _ _ _ (mapM_styleItem_run cv vp its fs)). cbv beta.
  rewrite originalTexts_survivors.
  destruct (List.length (map str (survivors its)) =? 0)%nat eqn:E1.
  { apply length_0_nil, map_eq_nil in E1. now elim Hne. }
  change (join sentinel (if anonymize st
                         then map (redactText env) (map str (survivors its))
                         else map str (survivors its))) with (requestOf env st its).
  destruct (translate_event (requestOf env st its) fs) as (ev & T & Tq & Td & Tp & Te).
  destruct (responseTo env st (requestOf env st its)) as [response|e] eqn:Eresp.
  - rewrite (bind_return _ _ _ _ _ _ T). cbv beta.
    destruct (drawItems_run env cv vp its (split sentinel response) 0 fs)
      as (o & fs' & evs & R & D & Rq & Pq & Pp).
    destruct o as [n|e].
    + rewrite (bind_return _ _ _ _ _ _ R). cbn [ret outcome fonts events app].
      exists ev, (evs ++ [])%list. split; [reflexivity|].
      rewrite app_nil_r. repeat split; try assumption; discriminate.
    + rewrite (bind_throw _ _ _ _ _ _ R). cbn [outcome fonts events app].
      exists ev, evs. split; [reflexivity|].
      repeat split; try assumption; discriminate.
  - rewrite (bind_throw _ _ _ _ _ _ T). cbn [outcome fonts events].
    exists ev, []. split; [reflexivity|].
    repeat split; try assumption; congruence.
Qed.

End PagePhases.

(** X8.  On a page with a surviving run, all pixel reads come first, then
    the one request, then the drawing; no drawing call and no font embedding
    precedes the response.  When the service throws, the page ends there:
    nothing is drawn, the font cache is as it was, and the error is the
    page's outcome. *)
Theorem page_reads_then_request_then_draws (env : Collaborators) (st : Settings)
    (cv : Canvas) (vp : Viewport) (its : list Item) (fs : Fonts) :
  (0 < List.length (survivors its))%nat ->
  let r := translatePage env st (mkPage its (Some cv) vp) fs in
  exists reads ev rest,
    events r = (reads ++ ev :: rest)%list
    /\ reads = flat_map (itemEvents cv vp) its
    /\ drawOps reads = [] /\ requests reads = [] /\ embedded reads = []
    /\ requests [ev] = [requestOf env st its] /\ drawOps [ev] = [] /\ embedded [ev] = []
    /\ pixelReads rest = [] /\ requests rest = []
    /\ (forall e, responseTo env st (requestOf env st its) = Throw e ->
                  rest = [] /\ fonts r = fs /\ outcome r = Throw e).
Proof.
  intros Hlen r.
  assert (Hne : survivors its <> []) by (intros E; rewrite E in Hlen; inversion Hlen).
  destruct (translatePage_phases env st cv vp its fs Hne)
    as (ev & rest & E & Hq & Hd & He & Hp & Hr & Ht).
  destruct (itemEvents_reads cv vp its) as [Id Ir].
  exists (flat_map (itemEvents cv vp) its), ev, rest.
  repeat split; try assumption; try apply (Ht _ H).
  apply itemEvents_embedded.
Qed.

Lemma page_reads_then_request_then_draws_witness :
  let env := Sample.answering "uno" in
  let r := translatePage env Sample.settings
                         (mkPage Sample.twoRuns (Some Sample.canvas) Sample.viewport) [] in
  exists reads ev rest,
    events r = (reads ++ ev :: rest)%list
    /\ reads = flat_map (itemEvents Sample.canvas Sample.viewport) Sample.twoRuns
    /\ drawOps reads = [] /\ requests reads = [] /\ embedded reads = []
    /\ requests [ev] = [requestOf env Sample.settings Sample.twoRuns]
    /\ drawOps [ev] = [] /\ embedded [ev] = []
    /\ pixelReads rest = [] /\ requests rest = []
    /\ (forall e, responseTo env Sample.settings (requestOf env Sample.settings Sample.twoRuns)
                  = Throw e ->
                  rest = [] /\ fonts r = [] /\ outcome r = Throw e).
Proof.
  intros env.
  apply (page_reads_then_request_then_draws env Sample.settings Sample.canvas Sample.viewport
           Sample.twoRuns []).
  vm_compute. lia.
Defined.

(** ** How many rectangles and texts a page draws *)

Section Counts.

Variables (env : Collaborators) (cv : Canvas) (vp : Viewport).

Lemma pairedOps_counts (runs : list TextItem) (texts : list string) :
  pairFailure env cv vp runs texts = None ->
  List.length (filter isRectangle (pairedOps env cv vp runs texts)) = List.length runs
  /\ List.length (filter isText (pairedOps env cv vp runs texts))
     = Nat.min (List.length runs) (List.length texts).
Proof.
  revert texts. induction runs as [|t runs IH]; intros texts Hf; [now split|].
  destruct texts as [|text texts]; cbn [pairedOps pairFailure] in *.
  - destruct (IH []) as [Hr Ht]; [now destruct runs|]. cbn [List.length Nat.min] in Ht.
    rewrite Nat.min_0_r in Ht. cbn. rewrite Hr, Ht. now split.
  - destruct (paintOutcome env cv vp t text) as [op|e] eqn:E; [|discriminate].
    destruct (paintOutcome_inv env cv vp t text op E) as (w & _ & ->).
    destruct (IH texts Hf) as [Hr Ht]. cbn. rewrite Hr, Ht. now split.
Qed.

Lemma pairedOps_counts_failure (runs : list TextItem) (texts : list string) (e : string) :
  pairFailure env cv vp runs texts = Some e ->
  List.length (filter isRectangle (pairedOps env cv vp runs texts))
  = S (List.length (filter isText (pairedOps env cv vp runs texts)))
  /\ (List.length (filter isRectangle (pairedOps env cv vp runs texts))
      <= Nat.min (List.length runs) (List.length texts))%nat.
Proof.
  revert texts. induction runs as [|t runs IH]; intros texts Hf; [discriminate|].
  destruct texts as [|text texts]; cbn [pairedOps pairFailure] in *; [discriminate|].
  destruct (paintOutcome env cv vp t text) as [op|e'] eqn:E.
  - destruct (paintOutcome_inv env cv vp t text op E) as (w & _ & ->).
    destruct (IH texts Hf) as [Hr Hm]. cbn. rewrite Hr. split; [reflexivity|].
    rewrite Hr in Hm. lia.
  - cbn. split; [reflexivity | lia].
Qed.

End Counts.

(** X9.  When the service returns and pdf-lib measures and draws every
    paired text, a page draws exactly one rectangle per surviving run,
    whatever the response, and as many texts as the smaller of the number of
    runs and the number of segments; as a split has at least one segment, the
    first surviving run is then painted, even on an empty response.  When
    pdf-lib throws on a text, the page has drawn one rectangle more than it
    has drawn texts, and no more rectangles than the smaller of the two
    numbers. *)
Theorem page_draw_counts (env : Collaborators) (st : Settings) (cv : Canvas)
    (vp : Viewport) (its : list Item) (fs : Fonts) (response : string) :
  responseTo env st (requestOf env st its) = Return response ->
  let ops := drawOps (events (translatePage env st (mkPage its (Some cv) vp) fs)) in
  let runs := survivors its in
  let texts := split sentinel response in
  (1 <= List.length texts)%nat
  /\ (pairFailure env cv vp runs texts = None ->
      List.length (filter isRectangle ops) = List.length runs
      /\ List.length (filter isText ops) = Nat.min (List.length runs) (List.length texts)
      /\ (runs <> [] -> (1 <= List.length (filter isText ops))%nat))
  /\ (forall e, pairFailure env cv vp runs texts = Some e ->
      List.length (filter isRectangle ops) = S (List.length (filter isText ops))
      /\ (List.length (filter isRectangle ops)
          <= Nat.min (List.length runs) (List.length texts))%nat).
Proof.
  intros Hresp ops runs texts. subst ops.
  rewrite (translatePage_ops env st cv vp its fs response Hresp). fold runs texts.
  assert (Hs : (1 <= List.length texts)%nat).
  { subst texts. unfold split.
    destruct (splitFrom_cons sentinel response 0 "") as (a & b & ->).
    cbn [List.length]. lia. }
  split; [exact Hs|]. split.
  - intros Hf. destruct (pairedOps_counts env cv vp runs texts Hf) as [Hr Ht].
    split; [exact Hr|]. split; [exact Ht|].
    intros Hne. rewrite Ht. destruct runs; [now elim Hne|].
    cbn [List.length]. lia.
  - intros e Hf. now apply pairedOps_counts_failure with (e := e).
Qed.

Lemma page_draw_counts_witness :
  let env := Sample.answering "" in
  let ops := drawOps (events (translatePage env Sample.settings
                               (mkPage Sample.fiveRuns (Some Sample.canvas) Sample.viewport) [])) in
  let runs := survivors Sample.fiveRuns in
  let texts := split sentinel "" in
  (1 <= List.length texts)%nat
  /\ (pairFailure env Sample.canvas Sample.viewport runs texts = None ->
      List.length (filter isRectangle ops) = List.length runs
      /\ List.length (filter isText ops) = Nat.min (List.length runs) (List.length texts)
      /\ (runs <> [] -> (1 <= List.length (filter isText ops))%nat))
  /\ (forall e, pairFailure env Sample.canvas Sample.viewport runs texts = Some e ->
      List.length (filter isRectangle ops) = S (List.length (filter isText ops))
      /\ (List.length (filter isRectangle ops)
          <= Nat.min (List.length runs) (List.length texts))%nat).
Proof.
  intros env.
  apply (page_draw_counts env Sample.settings Sample.canvas Sample.viewport
           Sample.fiveRuns [] "").
  reflexivity.
Defined.

(** ** The page loop *)

Section Document.

Variables (env : Collaborators) (st : Settings).

Lemma translatePage_summary (page : Page) (fs : Fonts) :
  outcome (translatePage env st page fs)
  = match pageFailure env st page with
    | Some e => Throw e
    | None => Return tt
    end
  /\ requests (events (translatePage env st page fs)) = pageRequests env st page
  /\ drawOps (events (translatePage env st page fs)) = pageDraws env st page.
Proof.
  destruct page as [its [cv|] vp]; unfold pageFailure, pageRequests, pageDraws;
    cbn [items canvasContext viewport].
  - destruct (translatePage_run env st cv vp its fs) as (_ & Hnil & Hrun).
    destruct (survivors its) as [|t runs] eqn:E.
    + rewrite Hnil by reflexivity. cbn.
      now destruct (responseTo env st (requestOf env st its)).
    + destruct Hrun as [Hreq Hresp]; [discriminate|].
      destruct (responseTo env st (requestOf env st its)); destruct Hresp; now repeat split.
  - unfold translatePage. cbn [items canvasContext].
    now destruct (List.length its =? 0)%nat.
Qed.

Lemma pageLoop_cons_return (page : Page) (rest : list Page) (fs : Fonts) :
  outcome (translatePage env st page fs) = Return tt ->
  pageLoop env st (page :: rest) fs
  = mkRun (outcome (pageLoop env st rest (fonts (translatePage env st page fs))))
          (fonts (pageLoop env st rest (fonts (translatePage env st page fs))))
          (events (translatePage env st page fs)
           ++ events (pageLoop env st rest (fonts (translatePage env st page fs))))%list.
Proof. intros H. cbn [pageLoop]. unfold bind. now rewrite H. Qed.

Lemma pageLoop_cons_throw (page : Page) (rest : list Page) (fs : Fonts) (e : string) :
  outcome (translatePage env st page fs) = Throw e ->
  pageLoop env st (page :: rest) fs
  = mkRun (Throw e) (fonts (translatePage env st page fs))
          (events (translatePage env st page fs)).
Proof. intros H. cbn [pageLoop]. unfold bind. now rewrite H. Qed.

Lemma pageLoop_returns (pages : list Page) (fs : Fonts) :
  (forall page, In page pages -> pageFailure env st page = None) ->
  outcome (pageLoop env st pages fs) = Return tt
  /\ requests (events (pageLoop env st pages fs)) = flat_map (pageRequests env st) pages
  /\ drawOps (events (pageLoop env st pages fs)) = flat_map (pageDraws env st) pages.
Proof.
  revert fs. induction pages as [|page rest IH]; intros fs Hok; [now repeat split|].
  destruct (translatePage_summary page fs) as (Ho & Hq & Hd).
  rewrite (Hok page (or_introl eq_refl)) in Ho.
  rewrite (pageLoop_cons_return _ _ _ Ho). cbn [outcome events flat_map].
  destruct (IH (fonts (translatePage env st page fs))) as (Io & Iq & Id).
  { intros p Hp. apply Hok. now right. }
  rewrite requests_app, drawOps_app, Hq, Hd, Iq, Id. now repeat split.
Qed.

Lemma pageLoop_throws (before : list Page) (page : Page) (after : list Page)
    (fs : Fonts) (e : string) :
  (forall p, In p before -> pageFailure env st p = None) ->
  pageFailure env st page = Some e ->
  outcome (pageLoop env st (before ++ page :: after) fs) = Throw e
  /\ requests (events (pageLoop env st (before ++ page :: after) fs))
     = flat_map (pageRequests env st) (before ++ [page])
  /\ drawOps (events (pageLoop env st (before ++ page :: after) fs))
     = flat_map (pageDraws env st) (before ++ [page]).
Proof.
  revert fs. induction before as [|p before IH]; intros fs Hok Hfail.
  - cbn [app]. destruct (translatePage_summary page fs) as (Ho & Hq & Hd).
    rewrite Hfail in Ho. rewrite (pageLoop_cons_throw _ _ _ _ Ho). cbn [outcome events flat_map].
    rewrite Hq, Hd, !app_nil_r. repeat split.
  - cbn [app]. destruct (translatePage_summary p fs) as (Ho & Hq & Hd).
    rewrite (Hok p (or_introl eq_refl)) in Ho.
    rewrite (pageLoop_cons_return _ _ _ Ho). cbn [outcome events flat_map].
    destruct (IH (fonts (translatePage env st p fs))) as (Io & Iq & Id).
    { intros q Hq'. apply Hok. now right. }
    { exact Hfail. }
    rewrite requests_app, drawOps_app, Hq, Hd, Iq, Id. now repeat split.
Qed.

End Document.

(** X10.  When no page of a document fails (its service call returns and
    pdf-lib measures and draws every paired text), [handleTranslate] ends
    without an error status; it has sent one request per page that has a
    surviving run, in page order, and drawn the calls of every page, in page
    order. *)
Theorem document_completes (env : Collaborators) (st : Settings) (pages : list Page) :
  (forall page, In page pages -> pageFailure env st page = None) ->
  fst (handleTranslate env st pages) = None
  /\ requests (snd (handleTranslate env st pages)) = flat_map (pageRequests env st) pages
  /\ drawOps (snd (handleTranslate env st pages)) = flat_map (pageDraws env st) pages.
Proof.
  intros Hok. destruct (pageLoop_returns env st pages [] Hok) as (Ho & Hq & Hd).
  unfold handleTranslate. rewrite Ho. cbn [fst snd]. now repeat split.
Qed.

Lemma document_completes_witness :
  let env := Sample.answering "uno ||| dos" in
  let pages := [Sample.page Sample.twoRuns; Sample.page Sample.blankRuns;
                Sample.page Sample.fiveRuns] in
  fst (handleTranslate env Sample.settings pages) = None
  /\ requests (snd (handleTranslate env Sample.settings pages))
     = flat_map (pageRequests env Sample.settings) pages
  /\ drawOps (snd (handleTranslate env Sample.settings pages))
     = flat_map (pageDraws env Sample.settings) pages.
Proof.
  intros env pages. apply (document_completes env Sample.settings pages).
  intros page [<-|[<-|[<-|[]]]]; reflexivity.
Defined.

(** X11.  The first page that fails, by its service call or by a text
    pdf-lib cannot measure or draw, ends the document: the status is the
    error message ["An error occurred: "] followed by the error; the requests
    made are those of the pages up to and including that page, what was drawn
    is what the pages before it drew followed by what the failing page drew
    before its failure, and no later page is requested or drawn.  A page
    whose service call throws has drawn nothing. *)
Theorem document_stops_at_first_failure (env : Collaborators) (st : Settings)
    (before : list Page) (page : Page) (after : list Page) (e : string) :
  (forall p, In p before -> pageFailure env st p = None) ->
  pageFailure env st page = Some e ->
  let result := handleTranslate env st (before ++ page :: after) in
  fst result = Some ("An error occurred: " ++ e)
  /\ requests (snd result) = flat_map (pageRequests env st) (before ++ [page])
  /\ drawOps (snd result) = flat_map (pageDraws env st) (before ++ [page])
  /\ (forall e', responseTo env st (requestOf env st (items page)) = Throw e' ->
                 e' = e /\ drawOps (snd result) = flat_map (pageDraws env st) before).
Proof.
  intros Hok Hfail result.
  destruct (pageLoop_throws env st before page after [] e Hok Hfail) as (Ho & Hq & Hd).
  subst result. unfold handleTranslate. rewrite Ho. cbn [fst snd].
  split; [reflexivity|]. split; [exact Hq|]. split; [exact Hd|].
  intros e' He'. rewrite Hd, flat_map_app. cbn [flat_map].
  unfold pageFailure in Hfail. unfold pageDraws at 2. rewrite He' in *.
  destruct (canvasContext page); [|discriminate].
  destruct (survivors (items page)); [discriminate|].
  injection Hfail as ->. now rewrite !app_nil_r.
Qed.

Lemma document_stops_at_first_failure_witness :
  let env := Sample.failingOnFive in
  let result := handleTranslate env Sample.settings
                  ([Sample.page Sample.twoRuns] ++ Sample.page Sample.fiveRuns
                   :: [Sample.page Sample.twoRuns]) in
  fst result = Some ("An error occurred: " ++ "quota exceeded")
  /\ requests (snd result)
     = flat_map (pageRequests env Sample.settings)
                ([Sample.page Sample.twoRuns] ++ [Sample.page Sample.fiveRuns])
  /\ drawOps (snd result)
     = flat_map (pageDraws env Sample.settings)
                ([Sample.page Sample.twoRuns] ++ [Sample.page Sample.fiveRuns])
  /\ (forall e', responseTo env Sample.settings
                           (requestOf env Sample.settings (items (Sample.page Sample.fiveRuns)))
                 = Throw e' ->
                 e' = "quota exceeded"
                 /\ drawOps (snd result)
                    = flat_map (pageDraws env Sample.settings) [Sample.page Sample.twoRuns]).
Proof.
  intros env.
  apply (document_stops_at_first_failure env Sample.settings [Sample.page Sample.twoRuns]
           (Sample.page Sample.fiveRuns) [Sample.page Sample.twoRuns] "quota exceeded").
  - intros p [<-|[]]. reflexivity.
  - reflexivity.
Defined.

(** A document whose second page comes back with a line feed in its first
    segment: the first page is drawn, the second page's first run is erased,
    and the document ends with pdf-lib's error. *)
Example document_stops_on_unencodable_text :
  let env := Sample.answeringStrict ("uno" ++ Sample.lineFeed ++ "dos ||| tres") in
  let pages := [Sample.page Sample.blankRuns; Sample.page Sample.twoRuns;
                Sample.page Sample.fiveRuns] in
  let result := handleTranslate env Sample.settings pages in
  fst result = Some "An error occurred: WinAnsi cannot encode"
  /\ requests (snd result) = ["one ||| two"]
  /\ drawOps (snd result) = [eraseOp (Sample.run "one" 11 700 "Arial")].
Proof. repeat split; vm_compute; reflexivity. Qed.

(** ** The name of the download *)

Section Replace.

Lemma dropChars_append (a b : string) : dropChars (String.length a) (a ++ b) = b.
Proof. induction a as [|c a IH]; [now destruct b | exact IH]. Qed.

Lemma replace_unfold (s pattern replacement : string) :
  replace s pattern replacement
  = if String.prefix pattern s
    then replacement ++ dropChars (String.length pattern) s
    else match s with
         | "" => ""
         | String c s' => String c (replace s' pattern replacement)
         end.
Proof. now destruct s. Qed.

Lemma replace_absent (s pattern replacement : string) :
  includes s pattern = false -> replace s pattern replacement = s.
Proof.
  induction s as [|c s IH]; intros Hi; rewrite includes_unfold in Hi;
    apply orb_false_iff in Hi; destruct Hi as [Hp Hi]; rewrite replace_unfold, Hp.
  - reflexivity.
  - now rewrite IH.
Qed.

(** A pattern that begins with a character the front part lacks is first
    found right after the front part. *)
Lemma replace_after (front rest replacement : string) (c : ascii) (pattern : string) :
  includes front (String c "") = false ->
  replace (front ++ String c pattern ++ rest) (String c pattern) replacement
  = front ++ replacement ++ rest.
Proof.
  induction front as [|d front IH]; intros Hi.
  - cbn [append]. rewrite replace_unfold.
    change (String c (pattern ++ rest)) with (String c pattern ++ rest).
    now rewrite prefix_append, dropChars_append.
  - rewrite includes_unfold in Hi. apply orb_false_iff in Hi. destruct Hi as [Hp Hi].
    change (String d front ++ String c pattern ++ rest)
      with (String d (front ++ String c pattern ++ rest)).
    rewrite replace_unfold.
    rewrite prefix_cons in Hp |- *. rewrite prefix_empty_l, andb_true_r in Hp.
    rewrite Hp. cbn [andb]. now rewrite IH.
Qed.

End Replace.

(** X12.  The download is named after the selected file with the first
    [".pdf"] replaced by ["_<language>.pdf"]: a name whose part before the
    first [".pdf"] has no dot gets the language inserted there, while a name
    without [".pdf"] (an upper-case extension, say) is kept as it is, so the
    translated file is offered under the name of the original. *)
Theorem download_name (s : App.State) (file : App.File) :
  App.pdfFile s = Some file ->
  includes (targetLanguage (App.settings s)) "$" = false ->
  (includes (App.name file) ".pdf" = false -> App.downloadName s = Some (App.name file))
  /\ (forall front rest,
        App.name file = front ++ ".pdf" ++ rest ->
        includes front "." = false ->
        App.downloadName s
        = Some (front ++ "_" ++ targetLanguage (App.settings s) ++ ".pdf" ++ rest)).
Proof.
  intros Hf _. unfold App.downloadName. rewrite Hf. split.
  - intros Hi. now rewrite replace_absent.
  - intros front rest E Hfront. rewrite E.
    rewrite (replace_after front rest _ "."%char "pdf" Hfront).
    now rewrite !append_assoc.
Qed.

Lemma download_name_witness :
  let file := App.mkFile "report.v2.PDF" "application/pdf" in
  let s := App.handleFileChange [file] App.initial in
  (includes (App.name file) ".pdf" = false -> App.downloadName s = Some (App.name file))
  /\ (forall front rest,
        App.name file = front ++ ".pdf" ++ rest ->
        includes front "." = false ->
        App.downloadName s
        = Some (front ++ "_" ++ targetLanguage (App.settings s) ++ ".pdf" ++ rest)).
Proof.
  intros file s. apply (download_name s file); reflexivity.
Defined.

(** ** Metadata *)

(** X13.  The new document always has an author and a producer that are
    not empty and the creator ["PDFLingo by Alberto Arce"]; a title, author,
    subject or producer of the source that is not empty is kept; the
    keywords of the source are cut at every [";"], none of them contains a
    [";"], and joined with [";"] they give the source's keywords back; a
    source without keywords gives none. *)
Theorem copyMetadata_defaults (now1 now2 : Z) (source : SourceInfo) :
  let info := copyMetadata now1 now2 source in
  author info <> "" /\ producer info <> ""
  /\ creator info = "PDFLingo by Alberto Arce"
  /\ modificationDate info = now2
  /\ (forall v, v <> "" ->
        (getTitle source = Some v -> title info = v)
        /\ (getAuthor source = Some v -> author info = v)
        /\ (getSubject source = Some v -> subject info = v)
        /\ (getProducer source = Some v -> producer info = v))
  /\ (forall k, getKeywords source = Some k ->
        join ";" (keywords info) = k
        /\ keywords info <> []
        /\ Forall (fun w => includes w ";" = false) (keywords info))
  /\ (getKeywords source = None -> keywords info = []).
Proof.
  intros info. subst info. unfold copyMetadata. cbn [author producer creator
    modificationDate title subject keywords].
  assert (Hor : forall value fallback, fallback <> "" -> orString value fallback <> "").
  { intros [v|] fallback Hf; cbn [orString]; [|exact Hf].
    destruct (String.eqb_spec v ""); assumption. }
  assert (Hkeep : forall v fallback, v <> "" -> orString (Some v) fallback = v).
  { intros v fallback Hv. cbn [orString]. apply String.eqb_neq in Hv. now rewrite Hv. }
  assert (Hsep : (0 < String.length ";")%nat) by (cbn; lia).
  split; [apply Hor; discriminate|]. split; [apply Hor; discriminate|].
  split; [reflexivity|]. split; [reflexivity|]. split.
  { intros v Hv. repeat split; intros ->; now apply Hkeep. }
  split.
  - intros k ->. unfold split. split; [|split].
    + now rewrite (join_splitFrom ";" Hsep (String.length k)).
    + destruct (splitFrom_cons ";" k 0 "") as (a & b & ->). discriminate.
    + apply (splitFrom_pieces ";" Hsep (String.length k)); [lia|]. apply NoEarlyMatch_empty.
  - now intros ->.
Qed.

(** ** File selection and the Translate button *)

(** X14.  Translate is enabled exactly when a file is selected and the
    service is Gemini or the Ollama URL is not empty.  Choosing files keeps
    the first one only if its type is ["application/pdf"], and then clears
    the status; otherwise nothing stays selected, the status is the error
    ["Please select a valid PDF file."], Translate is disabled and
    [handleTranslate] changes nothing. *)
Theorem file_selection (env : Collaborators) (load : App.File -> Outcome (list Page))
    (save : list Event -> string) (files : list App.File) (s : App.State) :
  let s' := App.handleFileChange files s in
  (App.isTranslateDisabled s' = false <->
   App.pdfFile s' <> None
   /\ (translationService (App.settings s') = Gemini \/ ollamaUrl (App.settings s') <> ""))
  /\ (forall file, App.pdfFile s' = Some file ->
        hd_error files = Some file /\ App.type file = "application/pdf"
        /\ App.status s' = None)
  /\ (App.pdfFile s' = None ->
        App.status s' = Some (App.mkStatus App.Error "Please select a valid PDF file.")
        /\ App.isTranslateDisabled s' = true
        /\ App.translated env load save s' = s')
  /\ App.settings s' = App.settings s /\ App.view s' = App.view s
  /\ App.translatedPdfBytes s' = App.translatedPdfBytes s.
Proof.
  intros s'. split; [|split; [|split]].
  - unfold App.isTranslateDisabled. destruct (App.pdfFile s') as [f|].
    + destruct (translationService (App.settings s')).
      * split; [intros _; split; [discriminate | now left] | reflexivity].
      * rewrite String.eqb_neq. split.
        -- intros H. split; [discriminate | now right].
        -- intros [_ [H|H]]; [discriminate | exact H].
    + split; [discriminate | intros [H _]; now elim H].
  - subst s'. unfold App.handleFileChange. intros file.
    destruct files as [|f files]; cbn [App.pdfFile]; [discriminate|].
    destruct (String.eqb_spec (App.type f) "application/pdf"); cbn [App.pdfFile App.status];
      [|discriminate].
    intros H. injection H as <-. now repeat split.
  - subst s'. unfold App.handleFileChange, App.isTranslateDisabled, App.translated.
    destruct files as [|f files]; cbn [App.pdfFile App.status]; [now repeat split|].
    destruct (String.eqb (App.type f) "application/pdf"); cbn [App.pdfFile App.status];
      [discriminate | now repeat split].
  - subst s'. unfold App.handleFileChange.
    destruct files as [|f files]; [now repeat split|].
    destruct (String.eqb (App.type f) "application/pdf"); now repeat split.
Qed.

(** ** The views *)

Section Views.

Variables (env : Collaborators) (load : App.File -> Outcome (list Page))
          (save : list Event -> string).

Ltac settle :=
  unfold Settled;
  cbn [App.view App.progressMessage App.pdfFile App.translatedPdfBytes App.status];
  repeat split; intros;
  repeat match goal with
         | H : Some _ = Some _ |- _ => injection H as <-
         end;
  try discriminate; try assumption; try congruence; auto.

Lemma Settled_initial : Settled App.initial.
Proof. settle. Qed.

Lemma Settled_step (s s' : App.State) :
  Settled s -> App.step env load save s s' -> Settled s'.
Proof.
  intros (Hv & Hp & Hf & Hu & Hr) Hstep.
  destruct Hstep as [s files Hview | s st Hview | s Hview Hen | s Hview].
  - unfold App.handleFileChange.
    destruct files as [|f files];
      [|destruct (String.eqb_spec (App.type f) "application/pdf")]; settle.
  - unfold App.setSettings. settle; eauto.
  - unfold App.translated. destruct (App.pdfFile s) as [file|] eqn:Efile.
    + destruct (load file) as [pages|e];
        [destruct (handleTranslate env (App.settings s) pages) as [[msg|] evs]|];
        settle; eauto.
    + unfold App.isTranslateDisabled in Hen. rewrite Efile in Hen. discriminate.
  - unfold App.handleReset. settle.
Qed.

End Views.

(** X15.  In every state the controls can lead to from the initial one
    (choosing files, changing the settings and clicking Translate in the
    upload view, clicking reset in the result view): the view is not the
    translating one and the progress message is empty; a selected file has
    type ["application/pdf"]; the upload view holds no translated bytes; and
    the result view has a selected file, translated bytes and no status, so
    that it always shows the comparison. *)
Theorem reachable_states_settled (env : Collaborators)
    (load : App.File -> Outcome (list Page)) (save : list Event -> string)
    (s : App.State) :
  App.reachable env load save s ->
  App.view s <> App.Translating
  /\ App.progressMessage s = ""
  /\ (forall file, App.pdfFile s = Some file -> App.type file = "application/pdf")
  /\ (App.view s = App.Upload -> App.translatedPdfBytes s = None)
  /\ (App.view s = App.Result ->
      App.pdfFile s <> None /\ App.translatedPdfBytes s <> None /\ App.status s = None).
Proof.
  intros H. change (Settled s). induction H as [|s s' _ IH Hstep].
  - apply Settled_initial.
  - exact (Settled_step env load save s s' IH Hstep).
Qed.

Lemma reachable_states_settled_witness :
  let env := Sample.answering "uno ||| dos" in
  let load := fun _ : App.File => Return [Sample.page Sample.twoRuns] in
  let save := fun _ : list Event => "%PDF" in
  let s := App.translated env load save
             (App.handleFileChange [App.mkFile "a.pdf" "application/pdf"] App.initial) in
  App.view s <> App.Translating
  /\ App.progressMessage s = ""
  /\ (forall file, App.pdfFile s = Some file -> App.type file = "application/pdf")
  /\ (App.view s = App.Upload -> App.translatedPdfBytes s = None)
  /\ (App.view s = App.Result ->
      App.pdfFile s <> None /\ App.translatedPdfBytes s <> None /\ App.status s = None).
Proof.
  intros env load save s.
  apply (reachable_states_settled env load save s).
  apply (App.reachable_step env load save
           (App.handleFileChange [App.mkFile "a.pdf" "application/pdf"] App.initial) s).
  - apply (App.reachable_step env load save App.initial).
    + apply App.reachable_initial.
    + apply App.FileChosen. reflexivity.
  - apply App.TranslateClicked; reflexivity.
Defined.

(** ** What is drawn, whatever happens *)

Section DrawnOps.

Variables (env : Collaborators) (st : Settings).

Lemma pairedOps_wellFormed (cv : Canvas) (vp : Viewport) (runs : list TextItem)
    (texts : list string) :
  Forall wellFormedOp (pairedOps env cv vp runs texts).
Proof.
  revert texts. induction runs as [|t runs IH]; intros texts; [constructor|].
  destruct texts as [|text texts]; cbn [pairedOps].
  - constructor; [reflexivity | apply IH].
  - constructor; [reflexivity|].
    destruct (paintOutcome env cv vp t text) as [op|e] eqn:E; [|constructor].
    destruct (paintOutcome_inv env cv vp t text op E) as (w & _ & ->).
    constructor; [|apply IH].
    split; [apply getFont_textFont|]. unfold fitSize. apply Q.le_max_r.
Qed.

Lemma translatePage_wellFormed (page : Page) (fs : Fonts) :
  Forall wellFormedOp (drawOps (events (translatePage env st page fs))).
Proof.
  destruct (translatePage_summary env st page fs) as (_ & _ & ->).
  unfold pageDraws. destruct (canvasContext page) as [cv|]; [|constructor].
  destruct (responseTo env st (requestOf env st (items page))); [|constructor].
  apply pairedOps_wellFormed.
Qed.

Lemma pageLoop_wellFormed (pages : list Page) (fs : Fonts) :
  Forall wellFormedOp (drawOps (events (pageLoop env st pages fs))).
Proof.
  revert fs. induction pages as [|page rest IH]; intros fs; [constructor|].
  cbn [pageLoop]. unfold bind.
  destruct (outcome (translatePage env st page fs)); cbn [events].
  - rewrite drawOps_app. apply Forall_app. split; [apply translatePage_wellFormed | apply IH].
  - apply translatePage_wellFormed.
Qed.

End DrawnOps.

(** X16.  Whatever the document, the settings and the answers of the
    service, every rectangle drawn is white and every text is drawn in one of
    the twelve text fonts at a size of at least 4. *)
Theorem drawn_ops_well_formed (env : Collaborators) (st : Settings) (pages : list Page) :
  Forall wellFormedOp (drawOps (snd (handleTranslate env st pages))).
Proof.
  unfold handleTranslate.
  destruct (outcome (pageLoop env st pages [])); cbn [snd]; apply pageLoop_wellFormed.
Qed.
